(** * The pull engine of [drive]: batched concurrent application of changes

    A shallow embedding of [pull.go] (package [drive]).  The Go functions
    [download], [localMod], [localAdd], [localDelete] and
    [playPullChangeList] are written as programs over the calls they make
    to the operating system, to the remote transport and to the Go runtime
    ([go] statements and [sync.WaitGroup]).  A sequential interpreter runs
    one handler, a scheduler-driven machine runs the goroutines of a pull. *)

From Equations Require Import Equations.
From stdpp Require Import gmap strings list fin_maps.

Local Open Scope string_scope.
Local Open Scope Z_scope.

(** ** Data model *)

(** Go's [error] values.  A [nil] error is [None]. *)
Inductive Errno := EEXIST | ENOENT | ENOTDIR | EISDIR | EBADF | EIO.

Inductive GoError :=
| PathError (op path : string) (errno : Errno)
| RemoteError (msg : string).

Abbreviation error := (option GoError) (only parsing).

#[global] Instance Errno_eq_dec : EqDecision Errno.
Proof. solve_decision. Defined.
#[global] Instance GoError_eq_dec : EqDecision GoError.
Proof. solve_decision. Defined.

(** Modelled from the spec: the [File] struct is declared outside
    [pull.go]; these are the fields the pull engine reads.  [ExportLinks]
    is a Go map, [None] being the [nil] map; [ModTime] is a [time.Time],
    kept as the instant it names, in nanoseconds since the Unix epoch
    (a [time.Time] reaches far beyond what 64 bits of nanoseconds hold). *)
Record File := {
  Id : string;
  IsDir : bool;
  BlobAt : string;
  ExportLinks : option (gmap string string);
  MimeType : string;
  ModTime : Z
}.

(** Modelled from the spec: the result of [Change.Op()] is one of the three
    operations the dispatch [switch] of [playPullChangeList] knows. *)
Inductive OpKind := OpAdd | OpMod | OpDelete.

(** Modelled from the spec: the [Change] struct is declared outside
    [pull.go].  [Src] and [Dest] are pointers in Go; a handler dereferences
    the side it needs without a check, so the record carries both. *)
Record Change := {
  Path : string;
  Src : File;
  Dest : File;
  Op : OpKind
}.

(** The receiver [g *Commands]: [g.context.AbsPathOf] maps a logical path
    into the local tree.  It is defined outside [pull.go] and kept as a
    function. *)
Record Commands := {
  AbsPathOf : string → string
}.

(** Indexing a Go map of strings: a missing key and a [nil] map both give
    the zero value. *)
Definition go_index (m : option (gmap string string)) (k : string) : string :=
  match m with
  | Some m => default "" (m !! k)
  | None => ""
  end.

Definition maxNumOfConcPullTasks : nat := 4.

Definition docExportsMap : gmap string (list string) :=
  list_to_map [
    ("text/plain", ["text/plain"; "txt"]);
    ("application/vnd.google-apps.drawing", ["image/svg+xml"; "svg+xml"]);
    ("application/vnd.google-apps.spreadsheet",
      ["application/vnd.openxmlformats-officedocument.spreadsheetml.sheet"; "xlsx"]);
    ("application/vnd.google-apps.document",
      ["application/vnd.openxmlformats-officedocument.wordprocessingml.document"; "docx"]);
    ("application/vnd.google-apps.presentation",
      ["application/vnd.openxmlformats-officedocument.presentationml.presentation"; "pptx"])
  ].

(** ** Library functions used by the code *)

(** [strings.Join]. *)
Definition strings_Join (elems : list string) (sep : string) : string :=
  String.concat sep elems.

(** [fmt.Print] on string operands writes them with nothing in between;
    [fmt.Println] separates operands by a space and ends the line. *)
Definition newline : string := String (Ascii.ascii_of_nat 10) EmptyString.
Definition fmt_Sprint (args : list string) : string := String.concat "" args.
Definition fmt_Sprintln (args : list string) : string :=
  String.concat " " args ++ newline.

(** [os.ModeDir|0755]. *)
Definition os_ModeDir : Z := Z.shiftl 1 31.
Definition dirPerm : Z := Z.lor os_ModeDir 493.

(** [filepath.Dir] on a cleaned path: everything before the last
    separator, the root for a path directly under it, ["."] for a path
    with no separator. *)
Fixpoint drop_last_elem (rev_path : list Ascii.ascii) : option (list Ascii.ascii) :=
  match rev_path with
  | [] => None
  | a :: rest =>
      if Ascii.eqb a (Ascii.ascii_of_nat 47) then Some rest else drop_last_elem rest
  end.

Definition filepath_Dir (path : string) : string :=
  match drop_last_elem (rev (String.list_ascii_of_string path)) with
  | None => "."
  | Some [] => "/"
  | Some r => String.string_of_list_ascii (rev r)
  end.

(** The elements of a path, and the absolute paths [filepath.Clean]
    leaves as they are: the root, or a separator before each element, no
    element being empty, ["."] or [".."]. *)
Fixpoint path_elems (cur path : string) : list string :=
  match path with
  | EmptyString => [cur]
  | String a rest =>
      if Ascii.eqb a (Ascii.ascii_of_nat 47) then cur :: path_elems "" rest
      else path_elems (cur ++ String a "") rest
  end.

Definition cleaned (path : string) : bool :=
  String.eqb path "/" ||
  match path_elems "" path with
  | "" :: e :: elems =>
      forallb (λ e, negb (String.eqb e "" || String.eqb e "." || String.eqb e ".."))
        (e :: elems)
  | _ => false
  end.

(** ** Programs over calls *)

Definition Fd := nat.
Definition Stream := nat.
Definition WgRef := nat.

(** What [g.rem.Download] returns: a stream and no error, or an error
    with possibly a stream. *)
Inductive DlResp :=
| DlOk (blob : Stream)
| DlErr (blob : option Stream) (err : GoError).

(** Calls that leave the program: [os], [io], [fmt], the remote transport
    and the progress counters of [Commands]. *)
Inductive Sys : Type → Type :=
| os_MkdirAll (path : string) (perm : Z) : Sys error
| os_Mkdir (path : string) (perm : Z) : Sys error
| os_Chtimes (path : string) (atime mtime : Z) : Sys error
| os_RemoveAll (path : string) : Sys error
| os_Create (path : string) : Sys (Fd + GoError)
| file_Close (fo : Fd) : Sys error
| io_Copy (dst : Fd) (src : Stream) : Sys (Z * error)
| blob_Close (blob : Stream) : Sys error
| rem_Download (id exportUrl : string) : Sys DlResp
| fmt_Write (s : string) : Sys unit
| taskStart (n : nat) : Sys unit
| taskDone : Sys unit
| taskFinish : Sys unit.

(** Calls to the Go runtime: wait groups and the [go] statement. *)
Inductive Sync : Type → Type :=
| wg_New : Sync WgRef
| wg_Add (wg : WgRef) (delta : Z) : Sync unit
| wg_Done (wg : WgRef) : Sync unit
| wg_Wait (wg : WgRef) : Sync unit
| go_handler (op : OpKind) (wg : WgRef) (c : Change) : Sync unit.

Inductive Eff (X : Type) : Type :=
| sys (c : Sys X)
| sync (c : Sync X).
Arguments sys {X} c.
Arguments sync {X} c.

Inductive Prog (R : Type) : Type :=
| Ret (r : R)
| Call {X : Type} (e : Eff X) (k : X → Prog R).
Arguments Ret {R} r.
Arguments Call {R X} e k.

Fixpoint bind {A B : Type} (p : Prog A) (f : A → Prog B) : Prog B :=
  match p with
  | Ret a => f a
  | Call e k => Call e (λ x, bind (k x) f)
  end.

#[global] Instance Prog_ret : MRet Prog := @Ret.
#[global] Instance Prog_bind : MBind Prog := λ A B f p, bind p f.

Definition call {X : Type} (c : Sys X) : Prog X := Call (sys c) Ret.
Definition rt {X : Type} (c : Sync X) : Prog X := Call (sync c) Ret.

(** A [defer]red call runs after the body has produced its result and
    leaves the result alone. *)
Definition defer {R : Type} (d : Prog unit) (body : Prog R) : Prog R :=
  r ← body; _ ← d; mret r.

(** ** The code of [pull.go] *)

Definition fmt_Print (args : list string) : Prog unit :=
  call (fmt_Write (fmt_Sprint args)).
Definition fmt_Println (args : list string) : Prog unit :=
  call (fmt_Write (fmt_Sprintln args)).

(** The first half of [download]: the export URL and the local name. *)
Definition exportTarget (change : Change) : Prog (string * string) :=
  let exportUrl := "" in
  let baseName := Path change in
  if (String.length (BlobAt (Src change)) <? 1)%nat then
    let mimeKeyExtList :=
      match docExportsMap !! MimeType (Src change) with
      | Some l => l
      | None => ["text/plain"; "txt"]
      end in
    let exportUrl := go_index (ExportLinks (Src change)) (mimeKeyExtList !!! 0%nat) in
    _ ← fmt_Print ["Exported "; baseName];
    let baseName := strings_Join [baseName; mimeKeyExtList !!! 1%nat] "." in
    _ ← fmt_Println [" to: "; baseName];
    mret (exportUrl, baseName)
  else mret (exportUrl, baseName).

(** The part of [download] that runs under the two deferred closures: it
    returns the final value of the variable [blob] with the error. *)
Definition fetchInto (fo : Fd) (id exportUrl : string)
  : Prog (option Stream * error) :=
  resp ← call (rem_Download id exportUrl);
  match resp with
  | DlErr blob err => mret (blob, Some err)
  | DlOk blob =>
      '(_, err) ← call (io_Copy fo blob);
      mret (Some blob, err)
  end.

Definition download (g : Commands) (change : Change) : Prog error :=
  '(exportUrl, baseName) ← exportTarget change;
  let destAbsPath := AbsPathOf g baseName in
  r ← call (os_Create destAbsPath);
  match r with
  | inr err => mret (Some err)
  | inl fo =>
      (* close fo on exit; the error of Close is dropped *)
      defer (_ ← call (file_Close fo); mret tt) (
        '(blob, err) ← fetchInto fo (Id (Src change)) exportUrl;
        _ ← match blob with
            | Some b => _ ← call (blob_Close b); mret tt
            | None => mret tt
            end;
        mret err)
  end.

Definition hasContent (f : File) : bool :=
  negb (String.eqb (BlobAt f) "") || bool_decide (is_Some (ExportLinks f)).

Definition localMod (g : Commands) (wg : WgRef) (change : Change) : Prog error :=
  defer (call taskDone) (defer (rt (wg_Done wg)) (
    let destAbsPath := AbsPathOf g (Path change) in
    err ← (if hasContent (Src change) then download g change else mret None);
    match err with
    | Some e => mret (Some e)
    | None =>
        call (os_Chtimes destAbsPath (ModTime (Src change)) (ModTime (Src change)))
    end)).

Definition localAdd (g : Commands) (wg : WgRef) (change : Change) : Prog error :=
  defer (call taskDone) (defer (rt (wg_Done wg)) (
    let destAbsPath := AbsPathOf g (Path change) in
    _ ← call (os_MkdirAll (filepath_Dir destAbsPath) dirPerm);
    if IsDir (Src change) then call (os_Mkdir destAbsPath dirPerm)
    else
      err ← (if hasContent (Src change) then download g change else mret None);
      match err with
      | Some e => mret (Some e)
      | None =>
          call (os_Chtimes destAbsPath (ModTime (Src change)) (ModTime (Src change)))
      end)).

Definition localDelete (g : Commands) (wg : WgRef) (change : Change) : Prog error :=
  defer (call taskDone) (defer (rt (wg_Done wg)) (
    call (os_RemoveAll (BlobAt (Dest change))))).

(** The [switch] on [c.Op()] under the [go] statements. *)
Definition handler (g : Commands) (op : OpKind) : WgRef → Change → Prog error :=
  match op with
  | OpMod => localMod g
  | OpAdd => localAdd g
  | OpDelete => localDelete g
  end.

(** The [for _, c := range next] loop, followed by [rest]. *)
Definition dispatch {R : Type} (wg : WgRef) (next : list Change) (rest : Prog R)
  : Prog R :=
  foldr (λ c r, Call (sync (go_handler (Op c) wg c)) (λ _, r)) rest next.

(** One turn of the outer loop for a non-empty [next]. *)
Definition playBatch {R : Type} (next : list Change) (rest : Prog R) : Prog R :=
  wg ← rt wg_New;
  _ ← rt (wg_Add wg (Z.of_nat (length next)));
  dispatch wg next (_ ← rt (wg_Wait wg); rest).

(** The slicing at the top of the loop body. *)
Definition splitNext (cl : list Change) : list Change * list Change :=
  if (maxNumOfConcPullTasks <? length cl)%nat
  then (take maxNumOfConcPullTasks cl, drop maxNumOfConcPullTasks cl)
  else (cl, []).

(** Keeps the equation of a test next to its value. *)
Definition inspect {A : Type} (x : A) : { y : A | x = y } := exist _ x eq_refl.

Equations? playLoop (cl : list Change) : Prog error by wf (length cl) lt :=
  playLoop cl with inspect (length (splitNext cl).1 =? 0)%nat := {
    | exist _ true _ => _ ← call taskFinish; mret None
    | exist _ false Hlen => playBatch (splitNext cl).1 (playLoop (splitNext cl).2)
    }.
Proof.
  apply Nat.eqb_neq in Hlen. revert Hlen.
  unfold splitNext, maxNumOfConcPullTasks.
  destruct (Nat.ltb_spec 4 (length cl)); simpl; [rewrite length_drop|]; lia.
Qed.

Definition playPullChangeList (g : Commands) (cl : list Change) : Prog error :=
  _ ← call (taskStart (length cl));
  playLoop cl.

(** ** The machine

    A [World] answers the calls that leave the program.  The machine adds
    the wait groups of the Go runtime and a log of every call with its
    answer, in the order they were made. *)

Class World (W : Type) := sys_call : ∀ X : Type, Sys X → W → X * W.
Arguments sys_call {W _ X} _ _.

Inductive Event :=
| Ev (tid : nat) {X : Type} (e : Eff X) (x : X).

Record Machine (W : Type) := {
  wgs : list Z;
  world : W;
  log : list Event
}.
Arguments wgs {W} _.
Arguments world {W} _.
Arguments log {W} _.

(** [sync.WaitGroup]: [Add] panics when the counter would become
    negative, [Wait] blocks until it is zero.  A panic and a blocked call
    both leave the caller without an answer. *)
Definition wg_shift (wg : WgRef) (delta : Z) (ws : list Z) : option (unit * list Z) :=
  n ← ws !! wg;
  if n + delta <? 0 then None else Some (tt, <[wg := n + delta]> ws).

Definition sync_call {X : Type} (c : Sync X) (ws : list Z) : option (X * list Z) :=
  match c in Sync X return option (X * list Z) with
  | wg_New => Some (length ws, (ws ++ [0])%list)
  | wg_Add wg delta => wg_shift wg delta ws
  | wg_Done wg => wg_shift wg (-1) ws
  | wg_Wait wg =>
      n ← ws !! wg;
      if n =? 0 then Some (tt, ws) else None
  | go_handler _ _ _ => Some (tt, ws)
  end.

Definition perform {W : Type} `{World W} (tid : nat) {X : Type} (e : Eff X)
    (m : Machine W) : option (X * Machine W) :=
  match e with
  | sys c =>
      let '(x, w) := sys_call c (world m) in
      Some (x, {| wgs := wgs m; world := w; log := (log m ++ [Ev tid e x])%list |})
  | sync c =>
      '(x, ws) ← sync_call c (wgs m);
      Some (x, {| wgs := ws; world := world m; log := (log m ++ [Ev tid e x])%list |})
  end.

(** One function call run to its end by thread [tid]. *)
Fixpoint run {W : Type} `{World W} (tid : nat) {R : Type} (p : Prog R)
    (m : Machine W) : option (R * Machine W) :=
  match p with
  | Ret r => Some (r, m)
  | Call e k =>
      match perform tid e m with
      | Some (x, m') => run tid (k x) m'
      | None => None
      end
  end.

(** The goroutines of a pull: thread 0 runs [playPullChangeList], a [go]
    statement appends a thread. *)
Record State (W : Type) := {
  threads : list (Prog error);
  mach : Machine W
}.
Arguments threads {W} _.
Arguments mach {W} _.

Definition spawned (g : Commands) {X : Type} (e : Eff X) : list (Prog error) :=
  match e with
  | sync (go_handler op wg c) => [handler g op wg c]
  | _ => []
  end.

(** Thread [tid] makes its next call; [None] when it has returned, is
    blocked or does not exist. *)
Definition step {W : Type} `{World W} (g : Commands) (tid : nat) (s : State W)
  : option (State W) :=
  match threads s !! tid with
  | Some (Call e k) =>
      match perform tid e (mach s) with
      | Some (x, m') =>
          Some {| threads := (<[tid := k x]> (threads s) ++ spawned g e)%list; mach := m' |}
      | None => None
      end
  | _ => None
  end.

(** A schedule names the thread to run at each turn; a turn given to a
    thread that cannot move is lost. *)
Definition exec {W : Type} `{World W} (g : Commands) (sched : list nat) (s : State W)
  : State W :=
  foldl (λ s tid, default s (step g tid s)) s sched.

Definition init {W : Type} (g : Commands) (cl : list Change) (w : W) : State W :=
  {| threads := [playPullChangeList g cl];
     mach := {| wgs := []; world := w; log := [] |} |}.

(** ** A reference world

    A local tree keyed by cleaned absolute paths, a remote store and a
    clock that advances by one at every call.  The operations follow the
    behaviour of Go's [os] and [io] packages on a tree without permissions
    or links, whose modification times are kept in nanoseconds since the
    Unix epoch: an entry that is made or written carries the clock, and so
    does the directory in which an entry is made or removed.  Modelled from
    the spec: the remote transport serves the content id when the export
    URL is empty, the export URL otherwise. *)

Inductive Node :=
| NFile (data : string) (mtime : Z)
| NDir (mtime : Z).

Record Disk := {
  nodes : gmap string Node;
  clock : Z;
  fds : gmap nat string;
  blobs : gmap nat string;
  next_handle : nat;
  by_id : gmap string string;
  by_url : gmap string string;
  stdout : list string;
  tasks : Z;
  finished : bool
}.

Definition mtime_of (n : Node) : Z :=
  match n with
  | NFile _ t => t
  | NDir t => t
  end.

Definition set_mtime (t : Z) (n : Node) : Node :=
  match n with
  | NFile data _ => NFile data t
  | NDir _ => NDir t
  end.

Definition with_nodes (ns : gmap string Node) (d : Disk) : Disk :=
  {| nodes := ns; clock := clock d; fds := fds d; blobs := blobs d;
     next_handle := next_handle d; by_id := by_id d; by_url := by_url d;
     stdout := stdout d; tasks := tasks d; finished := finished d |}.

Definition tick (d : Disk) : Disk :=
  {| nodes := nodes d; clock := clock d + 1; fds := fds d; blobs := blobs d;
     next_handle := next_handle d; by_id := by_id d; by_url := by_url d;
     stdout := stdout d; tasks := tasks d; finished := finished d |}.

(** A directory gets a new modification time when an entry is made or
    removed in it. *)
Definition touch_dir (path : string) (t : Z) (ns : gmap string Node)
  : gmap string Node :=
  match ns !! path with
  | Some (NDir _) => <[path := NDir t]> ns
  | _ => ns
  end.

(** [os.Mkdir]: the path must be free and its parent a directory. *)
Definition mkdir (path : string) (d : Disk) : error * Disk :=
  match nodes d !! path with
  | Some _ => (Some (PathError "mkdir" path EEXIST), d)
  | None =>
      match nodes d !! filepath_Dir path with
      | Some (NDir _) =>
          (None,
           with_nodes
             (<[path := NDir (clock d)]>
                (touch_dir (filepath_Dir path) (clock d) (nodes d))) d)
      | Some (NFile _ _) => (Some (PathError "mkdir" path ENOTDIR), d)
      | None => (Some (PathError "mkdir" path ENOENT), d)
      end
  end.

(** [os.MkdirAll]: nothing to do for a directory, an error for a file in
    the way, otherwise the parent chain first and then the path. *)
Fixpoint mkdirAll (fuel : nat) (path : string) (d : Disk) : error * Disk :=
  match nodes d !! path with
  | Some (NDir _) => (None, d)
  | Some (NFile _ _) => (Some (PathError "mkdir" path ENOTDIR), d)
  | None =>
      match fuel with
      | O => mkdir path d
      | S fuel =>
          let parent := filepath_Dir path in
          if (String.length parent <? String.length path)%nat then
            match mkdirAll fuel parent d with
            | (Some e, d') => (Some e, d')
            | (None, d') => mkdir path d'
            end
          else mkdir path d
      end
  end.

(** The zero [time.Time], January 1 of year 1 at 00:00:00 UTC, as an
    instant. *)
Definition zeroTime : Z := -62135596800000000000.

Definition minInt64 : Z := -9223372036854775808.
Definition maxInt64 : Z := 9223372036854775807.

(** [Time.UnixNano]: the instant as an [int64], computed with wrap-around
    for an instant outside the years 1678 to 2262. *)
Definition wrap64 (t : Z) : Z :=
  (t + 9223372036854775808) mod 18446744073709551616 - 9223372036854775808.

Definition UnixNano (t : Z) : Z := wrap64 t.

(** [os.Chtimes]: a zero [time.Time] leaves the time as it is, any other
    time is set to its [UnixNano]; the call answers [nil] in both cases. *)
Definition chtimes (path : string) (mtime : Z) (d : Disk) : error * Disk :=
  match nodes d !! path with
  | Some n =>
      (None,
       if mtime =? zeroTime then d
       else with_nodes (<[path := set_mtime (UnixNano mtime) n]> (nodes d)) d)
  | None => (Some (PathError "chtimes" path ENOENT), d)
  end.

Definition under (path : string) (k : string) : bool :=
  String.eqb k path || String.prefix (path ++ "/") k.

(** The directories a path goes through, the root first. *)
Fixpoint parents (fuel : nat) (path : string) : list string :=
  match fuel with
  | O => []
  | S fuel =>
      let parent := filepath_Dir path in
      if (String.length parent <? String.length path)%nat
      then parent :: parents fuel parent
      else []
  end.

Definition ancestors (path : string) : list string :=
  rev (parents (String.length path) path).

(** Looking a path up from the root down: the first ancestor that is
    missing stops the walk with ENOENT, the first that is a regular file
    with ENOTDIR. *)
Fixpoint walk (dirs : list string) (ns : gmap string Node) : option Errno :=
  match dirs with
  | [] => None
  | a :: dirs =>
      match ns !! a with
      | Some (NDir _) => walk dirs ns
      | Some (NFile _ _) => Some ENOTDIR
      | None => Some ENOENT
      end
  end.

(** A regular file stands where a directory of the path should be. *)
Definition file_on_path (path : string) (ns : gmap string Node) : bool :=
  existsb (λ a, match ns !! a with Some (NFile _ _) => true | _ => false end)
    (ancestors path).

(** The last element of a path. *)
Fixpoint last_elem (rev_path : list Ascii.ascii) : list Ascii.ascii :=
  match rev_path with
  | [] => []
  | a :: rest =>
      if Ascii.eqb a (Ascii.ascii_of_nat 47) then [] else a :: last_elem rest
  end.

Definition path_Base (path : string) : string :=
  String.string_of_list_ascii
    (rev (last_elem (rev (String.list_ascii_of_string path)))).

(** [os.RemoveAll] of a path other than the root.  An entry goes with
    everything below it, and its parent directory gets a new modification
    time.  For a path that names nothing the first attempt, [Remove],
    fails: when an ancestor is missing (or only the last element is) the
    answer is [nil]; when a regular file stands where a directory should
    be, the error of opening the parent, or of [unlinkat] in it when the
    parent is that file, is the answer. *)
Definition removeAll (path : string) (d : Disk) : error * Disk :=
  match nodes d !! path with
  | Some _ =>
      (None,
       with_nodes
         (touch_dir (filepath_Dir path) (clock d)
            (filter (λ kv, under path kv.1 = false) (nodes d))) d)
  | None =>
      match walk (ancestors path) (nodes d) with
      | Some ENOTDIR =>
          match walk (ancestors (filepath_Dir path)) (nodes d) with
          | Some ENOTDIR => (Some (PathError "open" (filepath_Dir path) ENOTDIR), d)
          | _ =>
              (Some (PathError "unlinkat"
                       (filepath_Dir path ++ "/" ++ path_Base path) ENOTDIR), d)
          end
      | _ => (None, d)
      end
  end.

(** [os.Create]: truncate a file, or create it in an existing directory,
    which then gets a new modification time. *)
Definition create (path : string) (d : Disk) : (Fd + GoError) * Disk :=
  match nodes d !! path, nodes d !! filepath_Dir path with
  | Some (NDir _), _ => (inr (PathError "open" path EISDIR), d)
  | Some (NFile _ _), Some (NDir _) =>
      (inl (next_handle d),
       {| nodes := <[path := NFile "" (clock d)]> (nodes d); clock := clock d;
          fds := <[next_handle d := path]> (fds d); blobs := blobs d;
          next_handle := S (next_handle d); by_id := by_id d; by_url := by_url d;
          stdout := stdout d; tasks := tasks d; finished := finished d |})
  | None, Some (NDir _) =>
      (inl (next_handle d),
       {| nodes := <[path := NFile "" (clock d)]>
                     (touch_dir (filepath_Dir path) (clock d) (nodes d));
          clock := clock d;
          fds := <[next_handle d := path]> (fds d); blobs := blobs d;
          next_handle := S (next_handle d); by_id := by_id d; by_url := by_url d;
          stdout := stdout d; tasks := tasks d; finished := finished d |})
  | _, Some (NFile _ _) => (inr (PathError "open" path ENOTDIR), d)
  | _, None => (inr (PathError "open" path ENOENT), d)
  end.

Definition close_file (fo : Fd) (d : Disk) : error * Disk :=
  match fds d !! fo with
  | Some path =>
      (None,
       {| nodes := nodes d; clock := clock d; fds := delete fo (fds d);
          blobs := blobs d; next_handle := next_handle d; by_id := by_id d;
          by_url := by_url d; stdout := stdout d; tasks := tasks d;
          finished := finished d |})
  | None => (Some (PathError "close" "" EBADF), d)
  end.

Definition close_blob (b : Stream) (d : Disk) : error * Disk :=
  match blobs d !! b with
  | Some _ =>
      (None,
       {| nodes := nodes d; clock := clock d; fds := fds d;
          blobs := delete b (blobs d); next_handle := next_handle d;
          by_id := by_id d; by_url := by_url d; stdout := stdout d;
          tasks := tasks d; finished := finished d |})
  | None => (Some (PathError "close" "" EBADF), d)
  end.

(** [io.Copy]: everything left in the stream is appended to the file. *)
Definition copy (dst : Fd) (src : Stream) (d : Disk) : (Z * error) * Disk :=
  match fds d !! dst, blobs d !! src with
  | Some path, Some data =>
      match nodes d !! path with
      | Some (NFile old _) =>
          ((Z.of_nat (String.length data), None),
           {| nodes := <[path := NFile (old ++ data) (clock d)]> (nodes d);
              clock := clock d; fds := fds d; blobs := <[src := ""]> (blobs d);
              next_handle := next_handle d; by_id := by_id d; by_url := by_url d;
              stdout := stdout d; tasks := tasks d; finished := finished d |})
      | _ => ((0, Some (PathError "write" path EIO)), d)
      end
  | None, _ => ((0, Some (PathError "write" "" EBADF)), d)
  | _, None => ((0, Some (PathError "read" "" EBADF)), d)
  end.

Definition fetch (id exportUrl : string) (d : Disk) : DlResp * Disk :=
  let found :=
    if String.eqb exportUrl "" then by_id d !! id else by_url d !! exportUrl in
  match found with
  | Some data =>
      (DlOk (next_handle d),
       {| nodes := nodes d; clock := clock d; fds := fds d;
          blobs := <[next_handle d := data]> (blobs d);
          next_handle := S (next_handle d); by_id := by_id d; by_url := by_url d;
          stdout := stdout d; tasks := tasks d; finished := finished d |})
  | None => (DlErr None (RemoteError "not found"), d)
  end.

Definition write_out (s : string) (d : Disk) : unit * Disk :=
  (tt,
   {| nodes := nodes d; clock := clock d; fds := fds d; blobs := blobs d;
      next_handle := next_handle d; by_id := by_id d; by_url := by_url d;
      stdout := (stdout d ++ [s])%list; tasks := tasks d; finished := finished d |}).

Definition set_tasks (n : Z) (fin : bool) (d : Disk) : unit * Disk :=
  (tt,
   {| nodes := nodes d; clock := clock d; fds := fds d; blobs := blobs d;
      next_handle := next_handle d; by_id := by_id d; by_url := by_url d;
      stdout := stdout d; tasks := n; finished := fin |}).

Definition disk_call {X : Type} (c : Sys X) (d : Disk) : X * Disk :=
  match c in Sys X return X * Disk with
  | os_MkdirAll path _ => mkdirAll (String.length path) path d
  | os_Mkdir path _ => mkdir path d
  | os_Chtimes path _ mtime => chtimes path mtime d
  | os_RemoveAll path => removeAll path d
  | os_Create path => create path d
  | file_Close fo => close_file fo d
  | io_Copy dst src => copy dst src d
  | blob_Close b => close_blob b d
  | rem_Download id exportUrl => fetch id exportUrl d
  | fmt_Write s => write_out s d
  | taskStart n => set_tasks (Z.of_nat n) false d
  | taskDone => set_tasks (tasks d - 1) (finished d) d
  | taskFinish => set_tasks (tasks d) true d
  end.

#[global] Instance Disk_World : World Disk :=
  λ X c d, let '(x, d') := disk_call c d in (x, tick d').

(** ** Reading a log *)

(** What [exportTarget] settles without looking at the world: the export
    URL, the local name and the lines it prints. *)
Definition exportChoice (change : Change) : string * string * list string :=
  if (String.length (BlobAt (Src change)) <? 1)%nat then
    let l := default ["text/plain"; "txt"] (docExportsMap !! MimeType (Src change)) in
    let name := Path change ++ "." ++ l !!! 1%nat in
    (go_index (ExportLinks (Src change)) (l !!! 0%nat), name,
     ["Exported " ++ Path change; " to:  " ++ name ++ newline])
  else ("", Path change, []).

(** The local entry of a change: the file [download] writes when there
    is content to fetch, the entry at the logical path when there is none. *)
Definition localEntry (g : Commands) (change : Change) : string :=
  if hasContent (Src change) then AbsPathOf g (exportChoice change).1.2
  else AbsPathOf g (Path change).

Definition printed (tid : nat) (lines : list string) : list Event :=
  map (λ s, Ev tid (sys (fmt_Write s)) tt) lines.

(** The calls of [download] once the destination and the URL are chosen,
    with the result it returns: the file could not be created; the fetch
    failed; the stream was copied. *)
Inductive materialized (tid : nat) (dest id url : string) : list Event → error → Prop :=
| mat_create_failed e :
    materialized tid dest id url [Ev tid (sys (os_Create dest)) (inr e)] (Some e)
| mat_fetch_failed fo e x :
    materialized tid dest id url
      [Ev tid (sys (os_Create dest)) (inl fo);
       Ev tid (sys (rem_Download id url)) (DlErr None e);
       Ev tid (sys (file_Close fo)) x]
      (Some e)
| mat_fetch_failed_stream fo b e y x :
    materialized tid dest id url
      [Ev tid (sys (os_Create dest)) (inl fo);
       Ev tid (sys (rem_Download id url)) (DlErr (Some b) e);
       Ev tid (sys (blob_Close b)) y;
       Ev tid (sys (file_Close fo)) x]
      (Some e)
| mat_copied fo b n err y x :
    materialized tid dest id url
      [Ev tid (sys (os_Create dest)) (inl fo);
       Ev tid (sys (rem_Download id url)) (DlOk b);
       Ev tid (sys (io_Copy fo b)) (n, err);
       Ev tid (sys (blob_Close b)) y;
       Ev tid (sys (file_Close fo)) x]
      err.

(** The file handles and streams a log leaves open: a successful
    [os.Create] and a stream returned by [Download] open one, the two
    [Close] calls release it. *)
Definition track_sys {X : Type} (c : Sys X) : X → list Fd * list Stream → list Fd * list Stream :=
  match c in Sys X return X → list Fd * list Stream → list Fd * list Stream with
  | os_Create _ => λ x o, match x with inl fo => (fo :: o.1, o.2) | inr _ => o end
  | rem_Download _ _ => λ x o,
      match x with
      | DlOk b | DlErr (Some b) _ => (o.1, b :: o.2)
      | DlErr None _ => o
      end
  | file_Close fo => λ _ o, (filter (λ h, h ≠ fo) o.1, o.2)
  | blob_Close b => λ _ o, (o.1, filter (λ h, h ≠ b) o.2)
  | _ => λ _ o, o
  end.

Definition track (o : list Fd * list Stream) (ev : Event) : list Fd * list Stream :=
  match ev with
  | Ev _ (sys c) x => track_sys c x o
  | Ev _ (sync _) _ => o
  end.

Definition held (evs : list Event) : list Fd * list Stream := foldl track ([], []) evs.

(** The calls of a log as seen from outside: which thread, and whether it
    is a [go] statement, a [wg.Done] or work of a handler body. *)
Definition tid_of (ev : Event) : nat :=
  match ev with Ev tid _ _ => tid end.

Definition is_go (ev : Event) : bool :=
  match ev with
  | Ev _ (sync (go_handler _ _ _)) _ => true
  | _ => false
  end.

Definition is_done (ev : Event) : bool :=
  match ev with
  | Ev _ (sync (wg_Done _)) _ => true
  | _ => false
  end.

Definition is_taskDone (ev : Event) : bool :=
  match ev with
  | Ev _ (sys taskDone) _ => true
  | _ => false
  end.

Definition is_create (ev : Event) : bool :=
  match ev with
  | Ev _ (sys (os_Create _)) _ => true
  | _ => false
  end.

(** Number of [go] statements in a log: the next task to dispatch. *)
Definition dispatched (evs : list Event) : nat := length (filter (λ ev, is_go ev = true) evs).

(** Thread [tid] has signalled its wait group in this log. *)
Definition signalled (tid : nat) (evs : list Event) : bool :=
  existsb (λ ev, is_done ev && (tid_of ev =? tid)%nat) evs.

(** The changes of the [go] statements of a log, in order. *)
Definition go_change (ev : Event) : option (OpKind * Change) :=
  match ev with
  | Ev _ (sync (go_handler op _ c)) _ => Some (op, c)
  | _ => None
  end.

Definition go_changes (evs : list Event) : list (OpKind * Change) :=
  omap go_change evs.

(** The calls of the common tail of [localMod] and [localAdd] (content,
    then time stamp) with the result: no content to fetch; [download]
    failed; [download] succeeded. *)
Inductive stamped (tid : nat) (g : Commands) (c : Change) : list Event → error → Prop :=
| st_no_content x :
    hasContent (Src c) = false →
    stamped tid g c
      [Ev tid (sys (os_Chtimes (AbsPathOf g (Path c)) (ModTime (Src c)) (ModTime (Src c)))) x]
      x
| st_download_failed evs e :
    hasContent (Src c) = true →
    materialized tid (AbsPathOf g (exportChoice c).1.2) (Id (Src c))
      (exportChoice c).1.1 evs (Some e) →
    stamped tid g c (printed tid (exportChoice c).2 ++ evs) (Some e)
| st_downloaded evs x :
    hasContent (Src c) = true →
    materialized tid (AbsPathOf g (exportChoice c).1.2) (Id (Src c))
      (exportChoice c).1.1 evs None →
    stamped tid g c
      (printed tid (exportChoice c).2 ++ evs ++
       [Ev tid (sys (os_Chtimes (AbsPathOf g (Path c)) (ModTime (Src c)) (ModTime (Src c)))) x])
      x.

(** The two deferred calls of a handler. *)
Definition epilogue (tid : nat) (wg : WgRef) : list Event :=
  [Ev tid (sync (wg_Done wg)) tt; Ev tid (sys taskDone) tt].

(** ** Sample inputs *)

Module Sample.

Definition g : Commands := {| AbsPathOf := λ p, "/home/u/" ++ p |}.

Definition disk : Disk :=
  {| nodes := list_to_map
       [("/", NDir 0); ("/home", NDir 0); ("/home/u", NDir 0);
        ("/home/u/old.txt", NFile "old" 7); ("/home/u/f", NFile "x" 7)];
     clock := 100; fds := ∅; blobs := ∅; next_handle := 3%nat;
     by_id := list_to_map [("id1", "hello")];
     by_url := list_to_map [("http://x/docx", "DOCX"); ("http://x/txt", "TXT")];
     stdout := []; tasks := 0; finished := false |}.

Definition mach : Machine Disk := {| wgs := [1]; world := disk; log := [] |}.

Definition absent : File :=
  {| Id := ""; IsDir := false; BlobAt := ""; ExportLinks := None;
     MimeType := ""; ModTime := 0 |}.

Definition blob_file : File :=
  {| Id := "id1"; IsDir := false; BlobAt := "https://blob/1"; ExportLinks := None;
     MimeType := "application/octet-stream"; ModTime := 42 |}.

Definition doc_links : gmap string string :=
  {[ "application/vnd.openxmlformats-officedocument.wordprocessingml.document" :=
       "http://x/docx" ]}.

Definition doc_file : File :=
  {| Id := "id2"; IsDir := false; BlobAt := ""; ExportLinks := Some doc_links;
     MimeType := "application/vnd.google-apps.document"; ModTime := 42 |}.

Definition odd_file : File :=
  {| Id := "id3"; IsDir := false; BlobAt := "";
     ExportLinks := Some {[ "text/plain" := "http://x/txt" ]};
     MimeType := "application/vnd.google-apps.form"; ModTime := 42 |}.

Definition dir_file : File :=
  {| Id := "id4"; IsDir := true; BlobAt := ""; ExportLinks := None;
     MimeType := "application/vnd.google-apps.folder"; ModTime := 42 |}.

Definition bare_file : File :=
  {| Id := "id5"; IsDir := false; BlobAt := ""; ExportLinks := None;
     MimeType := "application/vnd.google-apps.form"; ModTime := 42 |}.

Definition add_blob : Change :=
  {| Path := "a/b.bin"; Src := blob_file; Dest := absent; Op := OpAdd |}.
Definition add_doc : Change :=
  {| Path := "a/report"; Src := doc_file; Dest := absent; Op := OpAdd |}.
Definition add_odd : Change :=
  {| Path := "a/odd"; Src := odd_file; Dest := absent; Op := OpAdd |}.
Definition add_dir : Change :=
  {| Path := "photos"; Src := dir_file; Dest := absent; Op := OpAdd |}.
Definition add_under_file : Change :=
  {| Path := "f/x"; Src := blob_file; Dest := absent; Op := OpAdd |}.
Definition mod_bare : Change :=
  {| Path := "old.txt"; Src := bare_file; Dest := absent; Op := OpMod |}.
Definition del_gone : Change :=
  {| Path := "gone"; Src := absent;
     Dest := {| Id := ""; IsDir := false; BlobAt := "/home/u/gone";
                ExportLinks := None; MimeType := ""; ModTime := 0 |};
     Op := OpDelete |}.

(** A document to export where a local file has the logical name. *)
Definition mod_doc_at_f : Change :=
  {| Path := "f"; Src := doc_file; Dest := absent; Op := OpMod |}.

(** Changes without content whose time is the zero [time.Time], and the
    first instant past what an [int64] of nanoseconds holds. *)
Definition mod_zero_time : Change :=
  {| Path := "old.txt";
     Src := {| Id := "id5"; IsDir := false; BlobAt := ""; ExportLinks := None;
               MimeType := "application/vnd.google-apps.form";
               ModTime := zeroTime |};
     Dest := absent; Op := OpMod |}.
Definition mod_far_time : Change :=
  {| Path := "old.txt";
     Src := {| Id := "id5"; IsDir := false; BlobAt := ""; ExportLinks := None;
               MimeType := "application/vnd.google-apps.form";
               ModTime := maxInt64 + 1 |};
     Dest := absent; Op := OpMod |}.

(** The deletion of a path that goes through the file [f]. *)
Definition del_under_file : Change :=
  {| Path := "f/x"; Src := absent;
     Dest := {| Id := ""; IsDir := false; BlobAt := "/home/u/f/x";
                ExportLinks := None; MimeType := ""; ModTime := 0 |};
     Op := OpDelete |}.

(** Five changes, one more than a batch holds, and a schedule in which
    the four goroutines of the first batch stop right after [wg.Done]:
    thread 0 dispatches the fifth change, and only then does thread 1
    make its deferred [taskDone] call. *)
Definition five : list Change := repeat mod_bare 5.
Definition overtaking : list nat :=
  (repeat 0 7 ++ [1; 1; 2; 2; 3; 3; 4; 4] ++ repeat 0 4 ++ [1])%nat%list.

End Sample.

(** ** Batches, turns and the shape of a pull *)

(** The successive values of [next] in the loop of [playPullChangeList]. *)
Equations? batches (cl : list Change) : list (list Change) by wf (length cl) lt :=
  batches cl with inspect (length (splitNext cl).1 =? 0)%nat := {
    | exist _ true _ => []
    | exist _ false Hlen => (splitNext cl).1 :: batches (splitNext cl).2
    }.
Proof.
  apply Nat.eqb_neq in Hlen. revert Hlen.
  unfold splitNext, maxNumOfConcPullTasks.
  destruct (Nat.ltb_spec 4 (length cl)); simpl; [rewrite length_drop|]; lia.
Qed.

(** The end of the loop: [g.taskFinish()] and [return err], [err] being
    [nil] since nothing assigns it. *)
Definition playEnd : Prog error := _ ← call taskFinish; mret None.

(** Number of turns of a schedule in which the thread did move. *)
Fixpoint moves {W : Type} `{World W} (g : Commands) (sched : list nat) (s : State W)
  : nat :=
  match sched with
  | [] => 0
  | tid :: sched =>
      match step g tid s with
      | Some s' => S (moves g sched s')
      | None => moves g sched s
      end
  end.

(** A program that only makes calls that leave the program, at most [n]
    of them whatever the answers. *)
Inductive work {R : Type} : Prog R → nat → Prop :=
| work_ret r n : work (Ret r) n
| work_call {X : Type} (c : Sys X) (k : X → Prog R) n :
    (∀ x, work (k x) n) → work (Call (sys c) k) (S n).

(** Tactics that walk through a program to bound its calls. *)
Ltac find_stuck p :=
  lazymatch p with
  | bind ?q _ => find_stuck q
  | match ?x with _ => _ end => constr:(x)
  end.

Ltac work_step :=
  first
    [ apply work_ret
    | apply work_call; intros ?
    | match goal with
      | |- work ?p _ => let x := find_stuck p in destruct x; cbn [bind]
      end ].

Ltac open_prog :=
  unfold download, exportTarget, fetchInto, defer, fmt_Print, fmt_Println, call, rt,
    mbind, Prog_bind, mret, Prog_ret;
  cbn [bind].

(** What the proof tracks about a goroutine: its wait group, whether it
    has called [wg.Done], and a bound on the calls it has left. *)
Record Ghost := {
  gh_wg : WgRef;
  gh_signalled : bool;
  gh_cost : nat
}.

Inductive gstate : Prog error → Ghost → Prop :=
| gs_running wg p n :
    work p n →
    gstate (defer (call taskDone) (defer (rt (wg_Done wg)) p))
      {| gh_wg := wg; gh_signalled := false; gh_cost := n + 2 |}
| gs_signalled wg r :
    gstate (Call (sys taskDone) (λ _, Ret r))
      {| gh_wg := wg; gh_signalled := true; gh_cost := 1 |}
| gs_returned wg r :
    gstate (Ret r) {| gh_wg := wg; gh_signalled := true; gh_cost := 0 |}.

Fixpoint unsignalled (info : list Ghost) : nat :=
  match info with
  | [] => 0
  | x :: info => (if gh_signalled x then 0 else 1) + unsignalled info
  end.

Fixpoint total_cost (info : list Ghost) : nat :=
  match info with
  | [] => 0
  | x :: info => gh_cost x + total_cost info
  end.

(** Where thread 0 stands in [playPullChangeList]. *)
Inductive Phase :=
| PStart
| PLoop (rest : list Change)
| PAdd (wg : WgRef) (next rest : list Change)
| PDisp (wg : WgRef) (base : nat) (todo rest : list Change)
| PDone.

Definition main_prog (g : Commands) (cl : list Change) (ph : Phase) : Prog error :=
  match ph with
  | PStart => playPullChangeList g cl
  | PLoop rest => playLoop rest
  | PAdd wg next rest =>
      _ ← rt (wg_Add wg (Z.of_nat (length next)));
      dispatch wg next (_ ← rt (wg_Wait wg); playLoop rest)
  | PDisp wg _ todo rest => dispatch wg todo (_ ← rt (wg_Wait wg); playLoop rest)
  | PDone => Ret None
  end.

Definition pending (cl : list Change) (ph : Phase) : list Change :=
  match ph with
  | PStart => cl
  | PLoop rest => rest
  | PAdd _ next rest => (next ++ rest)%list
  | PDisp _ _ todo rest => (todo ++ rest)%list
  | PDone => []
  end.

Definition handler_cost : nat := 11.
Definition loop_cost (rest : list Change) : nat := 15 * length rest + 1.

Definition main_cost (cl : list Change) (ph : Phase) : nat :=
  match ph with
  | PStart => S (loop_cost cl)
  | PLoop rest => loop_cost rest
  | PAdd _ next rest => 2 + length next * S handler_cost + loop_cost rest
  | PDisp _ _ todo rest => 1 + length todo * S handler_cost + loop_cost rest
  | PDone => 0
  end.

Definition all_signalled (info : list Ghost) : Prop :=
  Forall (λ x, gh_signalled x = true) info.

Definition phase_ok (ph : Phase) (ws : list Z) (info : list Ghost) : Prop :=
  match ph with
  | PStart => info = [] ∧ ws = []
  | PLoop rest => all_signalled info ∧ (length info mod 4 = 0 ∨ rest = [])%nat
  | PAdd wg next rest =>
      all_signalled info ∧ (length info mod 4 = 0)%nat ∧
      (0 < length next ≤ 4)%nat ∧ (rest ≠ [] → length next = 4%nat) ∧
      ws !! wg = Some 0
  | PDisp wg base todo rest =>
      (base mod 4 = 0)%nat ∧ (base ≤ length info)%nat ∧
      (base < length info + length todo ≤ base + 4)%nat ∧
      (rest ≠ [] → (length info + length todo = base + 4)%nat) ∧
      all_signalled (take base info) ∧
      Forall (λ x, gh_signalled x = false → gh_wg x = wg) info ∧
      ws !! wg = Some (Z.of_nat (length todo + unsignalled info))
  | PDone => all_signalled info
  end.

(** The batch barrier on a log: when a [go] statement is made, every task
    of an earlier batch has called [wg.Done] already, and from then on its
    thread makes no call but [taskDone]. *)
Definition barrier (evs : list Event) : Prop :=
  ∀ t1 ev t2 i,
    evs = (t1 ++ ev :: t2)%list →
    is_go ev = true →
    (i / 4 < dispatched t1 / 4)%nat →
    signalled (S i) t1 = true ∧
    Forall (λ ev', tid_of ev' = S i → is_taskDone ev' = true) (ev :: t2).

Definition log_ok (cl : list Change) (evs : list Event) (info : list Ghost) : Prop :=
  dispatched evs = length info ∧
  go_changes evs = (λ c, (Op c, c)) <$> take (length info) cl ∧
  barrier evs ∧
  (∀ i x, info !! i = Some x → gh_signalled x = true → signalled (S i) evs = true).

(** The invariant of a pull of [cl], with a bound on the moves left. *)
Inductive Inv {W : Type} (g : Commands) (cl : list Change) (s : State W) (n : nat) : Prop :=
| Inv_intro (ph : Phase) (gs : list (Prog error)) (info : list Ghost)
    (Hthreads : threads s = main_prog g cl ph :: gs)
    (Hgs : Forall2 gstate gs info)
    (Hpending : drop (length gs) cl = pending cl ph)
    (Hlen : (length gs ≤ length cl)%nat)
    (Hphase : phase_ok ph (wgs (mach s)) info)
    (Hcost : (main_cost cl ph + total_cost info ≤ n)%nat)
    (Hlog : log_ok cl (log (mach s)) info).

(** A function call that has come to its end. *)
Definition returned {R : Type} (p : Prog R) : bool :=
  match p with
  | Ret _ => true
  | Call _ _ => false
  end.

(** Nothing can move. *)
Definition quiescent {W : Type} `{World W} (g : Commands) (s : State W) : Prop :=
  ∀ tid, step g tid s = None.

(** ** The orchestrator

    [Pull] calls collaborators that live outside [pull.go]: the remote
    lookup, [os.Stat], the resolver and the confirmation prompt.  Each is
    called once, and is kept as a function of its arguments; the [error]
    that [os.Stat] returns is dropped by the code. *)

Record Puller (FileInfo : Type) := {
  cmds : Commands;
  opts_Path : string;
  opts_IsNoPrompt : bool;
  rem_FindByPath : string → option File * error;
  os_Stat : string → option FileInfo;
  NewLocalFile : string → FileInfo → File;
  resolveChangeListRecv : bool → string → option File → option File → list Change * error;
  printChangeList : list Change → bool → bool
}.
Arguments cmds {FileInfo} _.
Arguments opts_Path {FileInfo} _.
Arguments opts_IsNoPrompt {FileInfo} _.
Arguments rem_FindByPath {FileInfo} _ _.
Arguments os_Stat {FileInfo} _ _.
Arguments NewLocalFile {FileInfo} _ _ _.
Arguments resolveChangeListRecv {FileInfo} _ _ _ _ _.
Arguments printChangeList {FileInfo} _ _ _.

(** The local side handed to the resolver: [nil] when [os.Stat] finds
    nothing. *)
Definition localOf {FileInfo : Type} (p : Puller FileInfo) : option File :=
  let absPath := AbsPathOf (cmds p) (opts_Path p) in
  match os_Stat p absPath with
  | Some localinfo => Some (NewLocalFile p absPath localinfo)
  | None => None
  end.

Definition Pull {FileInfo : Type} (p : Puller FileInfo) : Prog error :=
  let '(r, err) := rem_FindByPath p (opts_Path p) in
  match err with
  | Some e => mret (Some e)
  | None =>
      let l := localOf p in
      _ ← fmt_Println ["Resolving..."];
      let '(cl, err) := resolveChangeListRecv p false (opts_Path p) r l in
      match err with
      | Some e => mret (Some e)
      | None =>
          if printChangeList p cl (opts_IsNoPrompt p)
          then playPullChangeList (cmds p) cl
          else mret err
      end
  end.

Definition init_pull {FileInfo W : Type} (p : Puller FileInfo) (w : W) : State W :=
  {| threads := [Pull p]; mach := {| wgs := []; world := w; log := [] |} |}.

(** ** More ways to read a state or a log *)

(** A goroutine that is still in its handler: it has neither returned nor
    reached its deferred [taskDone], the last call of every handler. *)
Definition working (p : Prog error) : bool :=
  match p with
  | Ret _ => false
  | Call e _ =>
      match e with
      | sys c => match c with taskDone => false | _ => true end
      | sync _ => true
      end
  end.

Definition in_flight {W : Type} (s : State W) : nat :=
  length (filter (λ p, working p = true) (tail (threads s))).

Definition is_sync (ev : Event) : bool :=
  match ev with
  | Ev _ (sync _) _ => true
  | Ev _ (sys _) _ => false
  end.

Definition is_fetch (ev : Event) : bool :=
  match ev with
  | Ev _ (sys (rem_Download _ _)) _ => true
  | _ => false
  end.

Definition is_copy (ev : Event) : bool :=
  match ev with
  | Ev _ (sys (io_Copy _ _)) _ => true
  | _ => false
  end.

Definition is_mkdir (ev : Event) : bool :=
  match ev with
  | Ev _ (sys (os_MkdirAll _ _)) _ | Ev _ (sys (os_Mkdir _ _)) _ => true
  | _ => false
  end.

(** The extensions [download] can append to a name. *)
Definition exportExtensions : list string := ["txt"; "svg+xml"; "xlsx"; "docx"; "pptx"].

(** What the reference remote serves for an id and an export URL. *)
Definition served (d : Disk) (id exportUrl : string) : option string :=
  if String.eqb exportUrl "" then by_id d !! id else by_url d !! exportUrl.

(** The error a failed [os.Create], a failed [Download] or an [io.Copy]
    left in a log entry. *)
Definition create_error (ev : Event) : option GoError :=
  match ev with
  | Ev _ (sys c) x =>
      match c in Sys X return X → option GoError with
      | os_Create _ => λ x, match x with inr e => Some e | inl _ => None end
      | _ => λ _, None
      end x
  | Ev _ (sync _) _ => None
  end.

Definition fetch_error (ev : Event) : option GoError :=
  match ev with
  | Ev _ (sys c) x =>
      match c in Sys X return X → option GoError with
      | rem_Download _ _ => λ x, match x with DlErr _ e => Some e | DlOk _ => None end
      | _ => λ _, None
      end x
  | Ev _ (sync _) _ => None
  end.

Definition copy_error (ev : Event) : option error :=
  match ev with
  | Ev _ (sys c) x =>
      match c in Sys X return X → option error with
      | io_Copy _ _ => λ x, Some x.2
      | _ => λ _, None
      end x
  | Ev _ (sync _) _ => None
  end.

(** A sample orchestrator: the remote root is found, nothing is there
    locally, the resolver hands three changes and the user agrees. *)
Definition sample_puller : Puller unit :=
  {| cmds := Sample.g;
     opts_Path := "";
     opts_IsNoPrompt := true;
     rem_FindByPath := λ _, (Some Sample.dir_file, None);
     os_Stat := λ _, None;
     NewLocalFile := λ _ _, Sample.absent;
     resolveChangeListRecv := λ _ _ _ _,
       ([Sample.add_blob; Sample.add_doc; Sample.mod_bare], None);
     printChangeList := λ _ noPrompt, noPrompt |}.

(** Two more sample changes: new content for the file that is there, and
    the deletion of the sample user's whole directory. *)
Definition mod_blob : Change :=
  {| Path := "old.txt"; Src := Sample.blob_file; Dest := Sample.absent; Op := OpMod |}.

(** A raw blob for a name that is not there yet. *)
Definition new_blob : Change :=
  {| Path := "new.bin"; Src := Sample.blob_file; Dest := Sample.absent; Op := OpMod |}.

Definition add_home : Change :=
  {| Path := ""; Src := Sample.dir_file; Dest := Sample.absent; Op := OpAdd |}.

Definition del_home : Change :=
  {| Path := ""; Src := Sample.absent;
     Dest := {| Id := ""; IsDir := true; BlobAt := "/home/u";
                ExportLinks := None; MimeType := ""; ModTime := 0 |};
     Op := OpDelete |}.

Definition g_root : Commands := {| AbsPathOf := λ p, "/home/u" ++ p |}.


(** * Properties *)

(** ** Running one function call *)

Section Sequential.
Context {W : Type} `{World W}.

Lemma run_bind {A B : Type} (tid : nat) (p : Prog A) (f : A → Prog B) (m : Machine W) :
  run tid (bind p f) m =
  match run tid p m with
  | Some (a, m') => run tid (f a) m'
  | None => None
  end.
Proof.
  revert m. induction p as [a|X e k IH]; intros m; simpl; [reflexivity|].
  destruct (perform tid e m) as [[x m']|]; [apply IH|reflexivity].
Qed.

Lemma run_call (tid : nat) {X : Type} (c : Sys X) (m : Machine W) :
  run tid (call c) m =
  Some ((sys_call c (world m)).1,
        {| wgs := wgs m; world := (sys_call c (world m)).2;
           log := (log m ++ [Ev tid (sys c) (sys_call c (world m)).1])%list |}).
Proof. simpl. destruct (sys_call c (world m)); reflexivity. Qed.

Lemma exportTarget_run (tid : nat) (c : Change) (m : Machine W) :
  ∃ m', run tid (exportTarget c) m = Some ((exportChoice c).1, m') ∧
        log m' = (log m ++ printed tid (exportChoice c).2)%list ∧
        wgs m' = wgs m.
Proof.
  unfold exportTarget, exportChoice.
  destruct (String.length (BlobAt (Src c)) <? 1)%nat; simpl.
  - destruct (sys_call (fmt_Write _) (world m)) as [[] w1] eqn:E1. simpl.
    destruct (sys_call (fmt_Write _) w1) as [[] w2] eqn:E2. simpl.
    eexists; split; [reflexivity|]. simpl. rewrite <- app_assoc. split; reflexivity.
  - eexists; split; [reflexivity|]. simpl. rewrite app_nil_r. split; reflexivity.
Qed.

Lemma download_run (tid : nat) (g : Commands) (c : Change) (m : Machine W) :
  ∃ r m' evs,
    run tid (download g c) m = Some (r, m') ∧
    log m' = (log m ++ printed tid (exportChoice c).2 ++ evs)%list ∧
    wgs m' = wgs m ∧
    materialized tid (AbsPathOf g (exportChoice c).1.2) (Id (Src c))
      (exportChoice c).1.1 evs r.
Proof.
  unfold download.
  unfold mbind, Prog_bind. rewrite run_bind.
  destruct (exportTarget_run tid c m) as (m1 & -> & Hlog & Hwg).
  destruct (exportChoice c) as [[url name] lines]. simpl in *.
  destruct (sys_call (os_Create (AbsPathOf g name)) (world m1)) as [[fo|e] w2] eqn:E2;
    simpl.
  { destruct (sys_call (rem_Download (Id (Src c)) url) w2) as [[b|[b|] e] w3] eqn:E3;
      simpl.
    - destruct (sys_call (io_Copy fo b) w3) as [[n err] w4] eqn:E4. simpl.
      destruct (sys_call (blob_Close b) w4) as [y w5] eqn:E5. simpl.
      destruct (sys_call (file_Close fo) w5) as [x w6] eqn:E6. simpl.
      eexists _, _, _. split; [reflexivity|]. simpl. rewrite Hlog.
      split; [|split; [exact Hwg|apply mat_copied]].
      rewrite <- !app_assoc. reflexivity.
    - destruct (sys_call (blob_Close b) w3) as [y w5] eqn:E5. simpl.
      destruct (sys_call (file_Close fo) w5) as [x w6] eqn:E6. simpl.
      eexists _, _, _. split; [reflexivity|]. simpl. rewrite Hlog.
      split; [|split; [exact Hwg|apply mat_fetch_failed_stream]].
      rewrite <- !app_assoc. reflexivity.
    - destruct (sys_call (file_Close fo) w3) as [x w6] eqn:E6. simpl.
      eexists _, _, _. split; [reflexivity|]. simpl. rewrite Hlog.
      split; [|split; [exact Hwg|apply mat_fetch_failed]].
      rewrite <- !app_assoc. reflexivity. }
  eexists _, _, _. split; [reflexivity|]. simpl. rewrite Hlog.
  split; [|split; [exact Hwg|apply mat_create_failed]].
  rewrite <- !app_assoc. reflexivity.
Qed.
End Sequential.

(** ** The content materializer *)

Lemma length_zero_empty (s : string) : (String.length s <? 1)%nat = true ↔ s = "".
Proof.
  destruct s; simpl; split; intros Hs; try reflexivity; discriminate.
Qed.

Lemma held_printed (tid : nat) (lines : list string) (evs : list Event) :
  held (printed tid lines ++ evs) = held evs.
Proof.
  unfold held. rewrite foldl_app.
  f_equal. induction lines as [|s lines IH]; simpl; [reflexivity|exact IH].
Qed.

Lemma held_materialized (tid : nat) (dest id url : string) (evs : list Event) (r : error) :
  materialized tid dest id url evs r → held evs = ([], []).
Proof.
  destruct 1; unfold held; simpl; try reflexivity;
    repeat (rewrite ?filter_cons, ?filter_nil; simpl; case_decide; try congruence);
    reflexivity.
Qed.

(** C2 (export renaming).  A change with an empty [BlobAt], a non-empty
    [ExportLinks] map and the MIME type of a Google document: [download]
    prints the notice naming the source path and the suffixed name, creates
    the file at [Path + ".docx"] and fetches with the URL stored under the
    wordprocessingml key; what arrives is copied into that file. *)
Theorem download_document_as_docx {W : Type} `{World W} (tid : nat) (g : Commands)
    (c : Change) (m : Machine W) (links : gmap string string) :
  BlobAt (Src c) = "" →
  ExportLinks (Src c) = Some links →
  links ≠ ∅ →
  MimeType (Src c) = "application/vnd.google-apps.document" →
  ∃ r m' evs,
    run tid (download g c) m = Some (r, m') ∧
    log m' =
      (log m ++
       [Ev tid (sys (fmt_Write ("Exported " ++ Path c))) tt;
        Ev tid (sys (fmt_Write (" to:  " ++ (Path c ++ ".docx") ++ newline))) tt] ++
       evs)%list ∧
    materialized tid (AbsPathOf g (Path c ++ ".docx")) (Id (Src c))
      (default ""
         (links !! "application/vnd.openxmlformats-officedocument.wordprocessingml.document"))
      evs r.
Proof.
  intros Hblob Hlinks _ Hmime.
  destruct (download_run tid g c m) as (r & m' & evs & Hrun & Hlog & _ & Hmat).
  exists r, m', evs. split; [exact Hrun|].
  revert Hlog Hmat. unfold exportChoice. rewrite Hblob, Hmime, Hlinks. simpl.
  change (docExportsMap !! "application/vnd.google-apps.document")
    with (Some ["application/vnd.openxmlformats-officedocument.wordprocessingml.document"; "docx"]).
  intros Hlog Hmat. split; [exact Hlog|exact Hmat].
Qed.

(** C5 (fallback export).  A change with an empty [BlobAt] whose MIME type
    is not a key of the export table: [download] takes the pair
    (text/plain, txt), fetches with the URL stored under ["text/plain"]
    and creates the file at [Path + ".txt"]. *)
Theorem download_fallback_as_txt {W : Type} `{World W} (tid : nat) (g : Commands)
    (c : Change) (m : Machine W) :
  BlobAt (Src c) = "" →
  docExportsMap !! MimeType (Src c) = None →
  ∃ r m' evs,
    run tid (download g c) m = Some (r, m') ∧
    log m' =
      (log m ++
       [Ev tid (sys (fmt_Write ("Exported " ++ Path c))) tt;
        Ev tid (sys (fmt_Write (" to:  " ++ (Path c ++ ".txt") ++ newline))) tt] ++
       evs)%list ∧
    materialized tid (AbsPathOf g (Path c ++ ".txt")) (Id (Src c))
      (go_index (ExportLinks (Src c)) "text/plain") evs r.
Proof.
  intros Hblob Hmime.
  destruct (download_run tid g c m) as (r & m' & evs & Hrun & Hlog & _ & Hmat).
  exists r, m', evs. split; [exact Hrun|].
  revert Hlog Hmat. unfold exportChoice. rewrite Hblob, Hmime. simpl.
  intros Hlog Hmat. split; [exact Hlog|exact Hmat].
Qed.

(** C6 (raw blob).  A change with a non-empty [BlobAt]: [download] prints
    nothing, creates the file at the logical path with no suffix and calls
    the transport with the id of the source and an empty export URL; what
    arrives is copied into that file. *)
Theorem download_raw_blob {W : Type} `{World W} (tid : nat) (g : Commands)
    (c : Change) (m : Machine W) :
  BlobAt (Src c) ≠ "" →
  ∃ r m' evs,
    run tid (download g c) m = Some (r, m') ∧
    log m' = (log m ++ evs)%list ∧
    materialized tid (AbsPathOf g (Path c)) (Id (Src c)) "" evs r ∧
    Forall (λ ev, ∀ s x, ev ≠ Ev tid (sys (fmt_Write s)) x) evs.
Proof.
  intros Hblob.
  destruct (download_run tid g c m) as (r & m' & evs & Hrun & Hlog & _ & Hmat).
  exists r, m', evs. split; [exact Hrun|].
  revert Hlog Hmat. unfold exportChoice.
  destruct (String.length (BlobAt (Src c)) <? 1)%nat eqn:Hlen.
  { apply length_zero_empty in Hlen. contradiction. }
  simpl. intros Hlog Hmat. split; [exact Hlog|]. split; [exact Hmat|].
  destruct Hmat; repeat constructor; intros s x0 Heq; inversion Heq.
Qed.

(** C9 (release on every exit path).  Whatever the world answers, when
    [download] returns, the log of its calls leaves no file handle and no
    stream open: a created file is closed and a stream that was obtained
    is closed, on success, after a failed copy and after a failed fetch. *)
Theorem download_releases {W : Type} `{World W} (tid : nat) (g : Commands)
    (c : Change) (m : Machine W) :
  ∃ r m' evs,
    run tid (download g c) m = Some (r, m') ∧
    log m' = (log m ++ evs)%list ∧
    held evs = ([], []).
Proof.
  destruct (download_run tid g c m) as (r & m' & evs & Hrun & Hlog & _ & Hmat).
  exists r, m', (printed tid (exportChoice c).2 ++ evs)%list.
  split; [exact Hrun|]. split; [exact Hlog|].
  rewrite held_printed. eapply held_materialized, Hmat.
Qed.

(** ** The handlers *)

Section Handlers.
Context {W : Type} `{World W}.

Lemma run_defer {R : Type} (tid : nat) (d : Prog unit) (body : Prog R) (m : Machine W) :
  run tid (defer d body) m =
  match run tid body m with
  | Some (r, m1) =>
      match run tid d m1 with
      | Some (_, m2) => Some (r, m2)
      | None => None
      end
  | None => None
  end.
Proof.
  unfold defer. unfold mbind, Prog_bind. rewrite run_bind.
  destruct (run tid body m) as [[r m1]|]; [|reflexivity].
  cbv beta. rewrite run_bind. destruct (run tid d m1) as [[[] m2]|]; reflexivity.
Qed.

(** A handler body followed by its two deferred calls. *)
Lemma run_handler_frame (tid : nat) (wg : WgRef) (body : Prog error)
    (m m1 : Machine W) (r : error) (n : Z) :
  run tid body m = Some (r, m1) →
  wgs m1 !! wg = Some n →
  0 < n →
  ∃ m',
    run tid (defer (call taskDone) (defer (rt (wg_Done wg)) body)) m = Some (r, m') ∧
    log m' = (log m1 ++ epilogue tid wg)%list ∧
    wgs m' = <[wg := n - 1]> (wgs m1) ∧
    world m' = (sys_call taskDone (world m1)).2.
Proof.
  intros Hbody Hwg Hn. rewrite !run_defer, Hbody. simpl.
  unfold wg_shift. rewrite Hwg. simpl.
  destruct (n + -1 <? 0) eqn:Hneg; [apply Z.ltb_lt in Hneg; lia|]. simpl.
  destruct (sys_call taskDone (world m1)) as [[] w'] eqn:E. simpl.
  eexists. split; [reflexivity|]. simpl. rewrite <- app_assoc.
  split; [reflexivity|]. split; [|reflexivity].
  f_equal.
Qed.

Lemma run_stamp (tid : nat) (g : Commands) (c : Change) (m : Machine W) :
  ∃ r m' evs,
    run tid
      (err ← (if hasContent (Src c) then download g c else mret None);
       match err with
       | Some e => mret (Some e)
       | None =>
           call (os_Chtimes (AbsPathOf g (Path c)) (ModTime (Src c)) (ModTime (Src c)))
       end) m = Some (r, m') ∧
    log m' = (log m ++ evs)%list ∧
    wgs m' = wgs m ∧
    stamped tid g c evs r.
Proof.
  unfold mbind, Prog_bind. rewrite run_bind.
  destruct (hasContent (Src c)) eqn:Hc; cbv beta iota.
  - destruct (download_run tid g c m) as (r & m1 & evs & -> & Hlog & Hwg & Hmat).
    destruct r as [e|].
    + eexists _, _, _. split; [reflexivity|]. split; [exact Hlog|].
      split; [exact Hwg|]. apply st_download_failed; assumption.
    + simpl.
      destruct (sys_call (os_Chtimes _ _ _) (world m1)) as [x w2] eqn:E. simpl.
      eexists _, _, _. split; [reflexivity|]. simpl. rewrite Hlog.
      split; [|split; [exact Hwg|apply st_downloaded; eassumption]].
      rewrite <- !app_assoc. reflexivity.
  - simpl.
    destruct (sys_call (os_Chtimes _ _ _) (world m)) as [x w2] eqn:E. simpl.
    eexists _, _, _. split; [reflexivity|]. simpl.
    split; [reflexivity|]. split; [reflexivity|]. apply st_no_content; assumption.
Qed.

Lemma localMod_run (tid : nat) (g : Commands) (wg : WgRef) (c : Change)
    (m : Machine W) (n : Z) :
  wgs m !! wg = Some n →
  0 < n →
  ∃ r m' evs,
    run tid (localMod g wg c) m = Some (r, m') ∧
    log m' = (log m ++ evs ++ epilogue tid wg)%list ∧
    stamped tid g c evs r.
Proof.
  intros Hwg Hn.
  destruct (run_stamp tid g c m) as (r & m1 & evs & Hrun & Hlog & Hwgs & Hst).
  rewrite <- Hwgs in Hwg.
  destruct (run_handler_frame tid wg _ m m1 r n Hrun Hwg Hn) as (m' & Hrun' & Hlog' & _).
  exists r, m', evs. split; [exact Hrun'|]. split; [|exact Hst].
  rewrite Hlog', Hlog, <- app_assoc. reflexivity.
Qed.

Lemma localAdd_run (tid : nat) (g : Commands) (wg : WgRef) (c : Change)
    (m : Machine W) (n : Z) :
  wgs m !! wg = Some n →
  0 < n →
  ∃ r m' y evs,
    run tid (localAdd g wg c) m = Some (r, m') ∧
    log m' =
      (log m ++
       Ev tid (sys (os_MkdirAll (filepath_Dir (AbsPathOf g (Path c))) dirPerm)) y ::
       evs ++ epilogue tid wg)%list ∧
    if IsDir (Src c)
    then evs = [Ev tid (sys (os_Mkdir (AbsPathOf g (Path c)) dirPerm)) r]
    else stamped tid g c evs r.
Proof.
  intros Hwg Hn.
  set (mk := os_MkdirAll (filepath_Dir (AbsPathOf g (Path c))) dirPerm).
  set (m1 := {| wgs := wgs m; world := (sys_call mk (world m)).2;
                log := (log m ++ [Ev tid (sys mk) (sys_call mk (world m)).1])%list |}).
  assert (∃ r m2 evs,
    run tid
      (_ ← call mk;
       if IsDir (Src c) then call (os_Mkdir (AbsPathOf g (Path c)) dirPerm)
       else
         err ← (if hasContent (Src c) then download g c else mret None);
         match err with
         | Some e => mret (Some e)
         | None =>
             call (os_Chtimes (AbsPathOf g (Path c)) (ModTime (Src c)) (ModTime (Src c)))
         end) m = Some (r, m2) ∧
    log m2 = (log m1 ++ evs)%list ∧ wgs m2 = wgs m ∧
    if IsDir (Src c)
    then evs = [Ev tid (sys (os_Mkdir (AbsPathOf g (Path c)) dirPerm)) r]
    else stamped tid g c evs r) as (r & m2 & evs & Hrun & Hlog & Hwgs & Hshape).
  { unfold mbind at 1, Prog_bind at 1. rewrite run_bind, run_call.
    fold m1. cbv beta iota.
    destruct (IsDir (Src c)).
    - rewrite run_call.
      eexists _, _, _. split; [reflexivity|]. simpl. auto.
    - destruct (run_stamp tid g c m1) as (r & m2 & evs & Hrun & Hlog & Hwgs & Hst).
      exists r, m2, evs. auto. }
  rewrite <- Hwgs in Hwg.
  destruct (run_handler_frame tid wg _ m m2 r n Hrun Hwg Hn) as (m' & Hrun' & Hlog' & _).
  exists r, m', (sys_call mk (world m)).1, evs.
  split; [exact Hrun'|]. split; [|exact Hshape].
  rewrite Hlog', Hlog. subst m1. simpl. rewrite <- !app_assoc. reflexivity.
Qed.
End Handlers.

(** C7, as amended (what [localAdd] does with errors).  The answer of
    [os.MkdirAll] is dropped whatever it is: the rest of the handler does
    not depend on it.  For a file, an error of [download] is the handler's
    result and, when [download] succeeds or is skipped, the answer of
    [os.Chtimes] is; for a directory the answer of [os.Mkdir] is. *)
Theorem localAdd_error_policy {W : Type} `{World W} (tid : nat) (g : Commands)
    (wg : WgRef) (c : Change) (m : Machine W) (n : Z) :
  wgs m !! wg = Some n →
  0 < n →
  (∃ K, localAdd g wg c =
        Call (sys (os_MkdirAll (filepath_Dir (AbsPathOf g (Path c))) dirPerm)) (λ _, K)) ∧
  ∃ r m' y evs,
    run tid (localAdd g wg c) m = Some (r, m') ∧
    log m' =
      (log m ++
       Ev tid (sys (os_MkdirAll (filepath_Dir (AbsPathOf g (Path c))) dirPerm)) y ::
       evs ++ epilogue tid wg)%list ∧
    if IsDir (Src c)
    then evs = [Ev tid (sys (os_Mkdir (AbsPathOf g (Path c)) dirPerm)) r]
    else stamped tid g c evs r.
Proof.
  intros Hwg Hn. split.
  - unfold localAdd, defer, mbind, Prog_bind, call. simpl. eexists. reflexivity.
  - eapply localAdd_run; eassumption.
Qed.

(** C8, as amended (a change with no content).  With an empty [BlobAt]
    and a [nil] [ExportLinks], [localMod] and [localAdd] (for a file) do not
    call [download]: the only work is the time stamp (after the parent
    directories, for an Add), and its answer is the handler's result. *)
Theorem bare_change_only_stamps {W : Type} `{World W} (tid : nat) (g : Commands)
    (wg : WgRef) (c : Change) (m : Machine W) (n : Z) :
  BlobAt (Src c) = "" →
  ExportLinks (Src c) = None →
  wgs m !! wg = Some n →
  0 < n →
  let stamp :=
    os_Chtimes (AbsPathOf g (Path c)) (ModTime (Src c)) (ModTime (Src c)) in
  (∃ r m',
     run tid (localMod g wg c) m = Some (r, m') ∧
     log m' = (log m ++ [Ev tid (sys stamp) r] ++ epilogue tid wg)%list) ∧
  (IsDir (Src c) = false →
   ∃ r m' y,
     run tid (localAdd g wg c) m = Some (r, m') ∧
     log m' =
       (log m ++
        [Ev tid (sys (os_MkdirAll (filepath_Dir (AbsPathOf g (Path c))) dirPerm)) y;
         Ev tid (sys stamp) r] ++ epilogue tid wg)%list).
Proof.
  intros Hblob Hlinks Hwg Hn stamp.
  assert (hasContent (Src c) = false) as Hc.
  { unfold hasContent. rewrite Hblob, Hlinks. reflexivity. }
  split.
  - destruct (localMod_run tid g wg c m n Hwg Hn) as (r & m' & evs & Hrun & Hlog & Hst).
    exists r, m'. split; [exact Hrun|].
    destruct Hst; try congruence. exact Hlog.
  - intros Hdir.
    destruct (localAdd_run tid g wg c m n Hwg Hn) as (r & m' & y & evs & Hrun & Hlog & Hst).
    rewrite Hdir in Hst.
    exists r, m', y. split; [exact Hrun|].
    destruct Hst; try congruence. exact Hlog.
Qed.

(** ** The handlers on the reference world *)

Lemma disk_frame_inv (tid : nat) (wg : WgRef) (body : Prog error)
    (m m' : Machine Disk) (r : error) :
  run tid (defer (call taskDone) (defer (rt (wg_Done wg)) body)) m = Some (r, m') →
  ∃ m1, run tid body m = Some (r, m1) ∧ nodes (world m') = nodes (world m1).
Proof.
  rewrite !run_defer.
  destruct (run tid body m) as [[r1 m1]|]; [|discriminate].
  simpl. destruct (wg_shift wg (-1) (wgs m1)) as [[[] ws]|]; [|discriminate].
  simpl. intros [= <- <-]. exists m1. split; reflexivity.
Qed.

(** An instant an [int64] of nanoseconds holds is its own [UnixNano]. *)
Lemma wrap64_small (t : Z) : minInt64 ≤ t ≤ maxInt64 → wrap64 t = t.
Proof.
  unfold minInt64, maxInt64, wrap64. intros Ht.
  rewrite Z.mod_small by lia. lia.
Qed.

(** The zero [time.Time] is no such instant. *)
Lemma zeroTime_out_of_range (t : Z) : minInt64 ≤ t ≤ maxInt64 → (t =? zeroTime) = false.
Proof. unfold minInt64, maxInt64, zeroTime. intros Ht. apply Z.eqb_neq. lia. Qed.

Lemma disk_chtimes_ok (tid : nat) (path : string) (t : Z) (m m' : Machine Disk) :
  minInt64 ≤ t ≤ maxInt64 →
  run tid (call (os_Chtimes path t t)) m = Some (None, m') →
  ∃ n, nodes (world m') !! path = Some n ∧ mtime_of n = t.
Proof.
  intros Hrange. pose proof (zeroTime_out_of_range t Hrange) as Hzero.
  rewrite run_call. unfold sys_call, Disk_World. simpl. unfold chtimes.
  destruct (nodes (world m) !! path) as [n|] eqn:E; simpl; [|discriminate].
  rewrite Hzero.
  intros [= <-]. simpl. exists (set_mtime (UnixNano t) n).
  split; [apply lookup_insert_eq|].
  unfold UnixNano. rewrite wrap64_small by exact Hrange. destruct n; reflexivity.
Qed.

Lemma disk_stamp_ok (tid : nat) (g : Commands) (c : Change) (m m' : Machine Disk) :
  minInt64 ≤ ModTime (Src c) ≤ maxInt64 →
  run tid
    (err ← (if hasContent (Src c) then download g c else mret None);
     match err with
     | Some e => mret (Some e)
     | None =>
         call (os_Chtimes (AbsPathOf g (Path c)) (ModTime (Src c)) (ModTime (Src c)))
     end) m = Some (None, m') →
  ∃ n, nodes (world m') !! AbsPathOf g (Path c) = Some n ∧ mtime_of n = ModTime (Src c).
Proof.
  intros Hrange.
  unfold mbind at 1, Prog_bind at 1. rewrite run_bind.
  destruct (run tid _ m) as [[[e|] m0]|]; try discriminate.
  apply disk_chtimes_ok; assumption.
Qed.

(** A change that is no export has its local entry at the logical path. *)
Lemma localEntry_at_Path (g : Commands) (c : Change) :
  BlobAt (Src c) ≠ "" ∨ ExportLinks (Src c) = None →
  localEntry g c = AbsPathOf g (Path c).
Proof.
  intros Hkind. unfold localEntry, hasContent, exportChoice.
  destruct (String.length (BlobAt (Src c)) <? 1)%nat eqn:Hlen.
  - apply length_zero_empty in Hlen. rewrite Hlen.
    destruct Hkind as [Hblob|Hlinks]; [congruence|].
    rewrite Hlinks. reflexivity.
  - destruct (negb _ || _); reflexivity.
Qed.

(** C4, as amended (time stamps).  Take a change that is no export (it
    has a raw blob, or no content at all) and whose [Src.ModTime] is an
    instant an [int64] of nanoseconds since the Unix epoch holds, which
    the zero [time.Time] is not.  After a successful [localMod], and after
    a successful [localAdd] when the change is not a directory, the local
    entry of the change, which is the entry at its logical path, carries
    [Src.ModTime] as its modification time, whether content was fetched or
    not. *)
Theorem stamp_after_success (tid : nat) (g : Commands) (wg : WgRef) (c : Change)
    (m m' : Machine Disk) :
  Op c = OpMod ∨ (Op c = OpAdd ∧ IsDir (Src c) = false) →
  BlobAt (Src c) ≠ "" ∨ ExportLinks (Src c) = None →
  minInt64 ≤ ModTime (Src c) ≤ maxInt64 →
  run tid (handler g (Op c) wg c) m = Some (None, m') →
  localEntry g c = AbsPathOf g (Path c) ∧
  ∃ n, nodes (world m') !! localEntry g c = Some n ∧
       mtime_of n = ModTime (Src c).
Proof.
  intros Hop Hkind Hrange Hrun.
  pose proof (localEntry_at_Path g c Hkind) as Hentry.
  split; [exact Hentry|]. rewrite Hentry. revert Hrun.
  destruct Hop as [Hop|[Hop Hdir]]; rewrite Hop; unfold handler, localMod, localAdd;
    intros Hrun; apply disk_frame_inv in Hrun as (m1 & Hbody & ->).
  - eapply disk_stamp_ok; eassumption.
  - revert Hbody. cbv zeta. unfold mbind at 1, Prog_bind at 1.
    rewrite run_bind, run_call, Hdir. apply disk_stamp_ok; assumption.
Qed.

Lemma touch_dir_lookup_ne (p : string) (t : Z) (ns : gmap string Node) (k : string) :
  k ≠ p → touch_dir p t ns !! k = ns !! k.
Proof.
  intros Hk. unfold touch_dir.
  destruct (ns !! p) as [[data t0|t0]|]; try reflexivity.
  apply lookup_insert_ne. congruence.
Qed.

Lemma touch_dir_lookup (p : string) (t : Z) (ns : gmap string Node) :
  touch_dir p t ns !! p =
  match ns !! p with
  | Some (NDir _) => Some (NDir t)
  | x => x
  end.
Proof.
  unfold touch_dir.
  destruct (ns !! p) as [[data t0|t0]|] eqn:Hp; try exact Hp.
  apply lookup_insert_eq.
Qed.

Lemma touch_dir_None (p : string) (t : Z) (ns : gmap string Node) (k : string) :
  ns !! k = None → touch_dir p t ns !! k = None.
Proof.
  intros Hk. destruct (decide (k = p)) as [->|Hne].
  - rewrite touch_dir_lookup, Hk. reflexivity.
  - rewrite touch_dir_lookup_ne by exact Hne. exact Hk.
Qed.

(** A walk that meets no regular file does not stop on ENOTDIR. *)
Lemma walk_no_file (dirs : list string) (ns : gmap string Node) :
  existsb (λ a, match ns !! a with Some (NFile _ _) => true | _ => false end) dirs
    = false →
  walk dirs ns ≠ Some ENOTDIR.
Proof.
  induction dirs as [|a dirs IH]; simpl; [discriminate|].
  destruct (ns !! a) as [[data t|t]|]; simpl; try discriminate.
  exact IH.
Qed.

Lemma removeAll_missing (path : string) (d : Disk) :
  nodes d !! path = None →
  file_on_path path (nodes d) = false →
  removeAll path d = (None, d).
Proof.
  intros Hgone Hfile. unfold removeAll. rewrite Hgone.
  pose proof (walk_no_file (ancestors path) (nodes d) Hfile) as Hwalk.
  destruct (walk (ancestors path) (nodes d)) as [[]|]; try reflexivity.
  congruence.
Qed.

Lemma localDelete_missing (tid : nat) (g : Commands) (wg : WgRef) (c : Change)
    (m : Machine Disk) (n : Z) :
  nodes (world m) !! BlobAt (Dest c) = None →
  file_on_path (BlobAt (Dest c)) (nodes (world m)) = false →
  wgs m !! wg = Some n →
  0 < n →
  ∃ m',
    run tid (localDelete g wg c) m = Some (None, m') ∧
    nodes (world m') = nodes (world m).
Proof.
  intros Hgone Hfile Hwg Hn.
  assert (run tid (call (os_RemoveAll (BlobAt (Dest c)))) m =
          Some (None,
                {| wgs := wgs m; world := tick (world m);
                   log := (log m ++
                           [Ev tid (sys (os_RemoveAll (BlobAt (Dest c)))) None])%list |}))
    as Hbody.
  { rewrite run_call. unfold sys_call, Disk_World. simpl.
    rewrite (removeAll_missing _ _ Hgone Hfile). reflexivity. }
  eapply run_handler_frame in Hbody as (m' & Hrun & _ & _ & Hworld);
    [|exact Hwg|exact Hn].
  exists m'. split; [exact Hrun|]. rewrite Hworld. reflexivity.
Qed.

(** C10, as amended (deleting what is not there).  [Dest.BlobAt] is a
    cleaned absolute path, as the keys of the tree are.  When it names no
    entry of the local tree and no regular file stands where one of its
    directories should be, [localDelete] returns [nil] and the tree is what
    it was; the same call made again returns [nil] again and still leaves
    the tree as it was. *)
Theorem localDelete_missing_path (tid : nat) (g : Commands) (wg : WgRef) (c : Change)
    (m : Machine Disk) (n : Z) :
  cleaned (BlobAt (Dest c)) = true →
  nodes (world m) !! BlobAt (Dest c) = None →
  file_on_path (BlobAt (Dest c)) (nodes (world m)) = false →
  wgs m !! wg = Some n →
  0 < n →
  ∃ m',
    run tid (localDelete g wg c) m = Some (None, m') ∧
    nodes (world m') = nodes (world m) ∧
    ∀ tid' wg' n',
      wgs m' !! wg' = Some n' →
      0 < n' →
      ∃ m'',
        run tid' (localDelete g wg' c) m' = Some (None, m'') ∧
        nodes (world m'') = nodes (world m).
Proof.
  intros _ Hgone Hfile Hwg Hn.
  destruct (localDelete_missing tid g wg c m n Hgone Hfile Hwg Hn)
    as (m' & Hrun & Hsame).
  exists m'. split; [exact Hrun|]. split; [exact Hsame|].
  intros tid' wg' n' Hwg' Hn'.
  rewrite <- Hsame in Hgone, Hfile.
  destruct (localDelete_missing tid' g wg' c m' n' Hgone Hfile Hwg' Hn')
    as (m'' & Hrun' & Hsame').
  exists m''. split; [exact Hrun'|]. rewrite Hsame'. exact Hsame.
Qed.

(** After any [localDelete] the path names nothing. *)
Lemma localDelete_removes (tid : nat) (g : Commands) (wg : WgRef) (c : Change)
    (m m' : Machine Disk) (r : error) :
  run tid (localDelete g wg c) m = Some (r, m') →
  nodes (world m') !! BlobAt (Dest c) = None.
Proof.
  intros Hrun. apply disk_frame_inv in Hrun as (m1 & Hbody & ->).
  rewrite run_call in Hbody. unfold sys_call, Disk_World in Hbody. simpl in Hbody.
  destruct (nodes (world m) !! BlobAt (Dest c)) eqn:E.
  - unfold removeAll in Hbody. rewrite E in Hbody. simpl in Hbody.
    injection Hbody as <- <-. simpl.
    apply touch_dir_None, map_lookup_filter_None. right. intros x _. simpl.
    unfold under. rewrite String.eqb_refl. discriminate.
  - assert (nodes (removeAll (BlobAt (Dest c)) (world m)).2 = nodes (world m)) as Hsame.
    { unfold removeAll. rewrite E.
      destruct (walk (ancestors (BlobAt (Dest c))) (nodes (world m))) as [[]|];
        try reflexivity.
      destruct (walk (ancestors (filepath_Dir (BlobAt (Dest c)))) (nodes (world m)))
        as [[]|]; reflexivity. }
    destruct (removeAll (BlobAt (Dest c)) (world m)) as [r0 d0].
    simpl in Hbody, Hsame. injection Hbody as <- <-. simpl.
    rewrite Hsame. exact E.
Qed.

(** ** Instances on the sample inputs *)

Lemma download_document_as_docx_witness :
  (BlobAt (Src Sample.add_doc) = "" ∧
   ExportLinks (Src Sample.add_doc) = Some Sample.doc_links ∧
   Sample.doc_links ≠ ∅ ∧
   MimeType (Src Sample.add_doc) = "application/vnd.google-apps.document") ∧
  ∃ r m' evs,
    run 1 (download Sample.g Sample.add_doc) Sample.mach = Some (r, m') ∧
    log m' =
      (log Sample.mach ++
       [Ev 1 (sys (fmt_Write "Exported a/report")) tt;
        Ev 1 (sys (fmt_Write (" to:  " ++ "a/report.docx" ++ newline))) tt] ++
       evs)%list ∧
    materialized 1 "/home/u/a/report.docx" "id2" "http://x/docx" evs r.
Proof.
  assert (Sample.doc_links ≠ ∅) as Hne by apply map_non_empty_singleton.
  split; [repeat split; try reflexivity; exact Hne|].
  exact (download_document_as_docx 1 Sample.g Sample.add_doc Sample.mach
           Sample.doc_links eq_refl eq_refl Hne eq_refl).
Defined.

Lemma download_fallback_as_txt_witness :
  (BlobAt (Src Sample.add_odd) = "" ∧
   docExportsMap !! MimeType (Src Sample.add_odd) = None) ∧
  ∃ r m' evs,
    run 1 (download Sample.g Sample.add_odd) Sample.mach = Some (r, m') ∧
    log m' =
      (log Sample.mach ++
       [Ev 1 (sys (fmt_Write "Exported a/odd")) tt;
        Ev 1 (sys (fmt_Write (" to:  " ++ "a/odd.txt" ++ newline))) tt] ++
       evs)%list ∧
    materialized 1 "/home/u/a/odd.txt" "id3" "http://x/txt" evs r.
Proof.
  split; [split; reflexivity|].
  exact (download_fallback_as_txt 1 Sample.g Sample.add_odd Sample.mach eq_refl eq_refl).
Defined.

Lemma download_raw_blob_witness :
  BlobAt (Src Sample.add_blob) ≠ "" ∧
  ∃ r m' evs,
    run 1 (download Sample.g Sample.add_blob) Sample.mach = Some (r, m') ∧
    log m' = (log Sample.mach ++ evs)%list ∧
    materialized 1 "/home/u/a/b.bin" "id1" "" evs r ∧
    Forall (λ ev, ∀ s x, ev ≠ Ev 1 (sys (fmt_Write s)) x) evs.
Proof.
  assert (BlobAt (Src Sample.add_blob) ≠ "") as Hne by discriminate.
  split; [exact Hne|].
  exact (download_raw_blob 1 Sample.g Sample.add_blob Sample.mach Hne).
Defined.

Lemma localAdd_error_policy_witness :
  (wgs Sample.mach !! 0%nat = Some 1 ∧ 0 < 1) ∧
  (∃ K, localAdd Sample.g 0%nat Sample.add_under_file =
        Call (sys (os_MkdirAll "/home/u/f" dirPerm)) (λ _, K)) ∧
  ∃ r m' y evs,
    run 1 (localAdd Sample.g 0%nat Sample.add_under_file) Sample.mach = Some (r, m') ∧
    log m' =
      (log Sample.mach ++
       Ev 1 (sys (os_MkdirAll "/home/u/f" dirPerm)) y :: evs ++ epilogue 1 0%nat)%list ∧
    stamped 1 Sample.g Sample.add_under_file evs r.
Proof.
  split; [split; [reflexivity|lia]|].
  exact (localAdd_error_policy 1 Sample.g 0%nat Sample.add_under_file Sample.mach 1
           eq_refl ltac:(lia)).
Defined.

Lemma bare_change_only_stamps_witness :
  (BlobAt (Src Sample.mod_bare) = "" ∧ ExportLinks (Src Sample.mod_bare) = None ∧
   wgs Sample.mach !! 0%nat = Some 1 ∧ 0 < 1) ∧
  (∃ r m',
     run 1 (localMod Sample.g 0%nat Sample.mod_bare) Sample.mach = Some (r, m') ∧
     log m' =
       (log Sample.mach ++ [Ev 1 (sys (os_Chtimes "/home/u/old.txt" 42 42)) r] ++
        epilogue 1 0%nat)%list) ∧
  (IsDir (Src Sample.mod_bare) = false →
   ∃ r m' y,
     run 1 (localAdd Sample.g 0%nat Sample.mod_bare) Sample.mach = Some (r, m') ∧
     log m' =
       (log Sample.mach ++
        [Ev 1 (sys (os_MkdirAll "/home/u" dirPerm)) y;
         Ev 1 (sys (os_Chtimes "/home/u/old.txt" 42 42)) r] ++ epilogue 1 0%nat)%list).
Proof.
  split; [repeat split; try reflexivity; lia|].
  exact (bare_change_only_stamps 1 Sample.g 0%nat Sample.mod_bare Sample.mach 1
           eq_refl eq_refl eq_refl ltac:(lia)).
Defined.

Lemma stamp_after_success_witness :
  ((Op Sample.add_blob = OpAdd ∧ IsDir (Src Sample.add_blob) = false) ∧
   BlobAt (Src Sample.add_blob) ≠ "" ∧
   minInt64 ≤ ModTime (Src Sample.add_blob) ≤ maxInt64) ∧
  ∃ m',
    run 1 (handler Sample.g (Op Sample.add_blob) 0%nat Sample.add_blob) Sample.mach
      = Some (None, m') ∧
    localEntry Sample.g Sample.add_blob = "/home/u/a/b.bin" ∧
    ∃ n, nodes (world m') !! localEntry Sample.g Sample.add_blob = Some n ∧
         mtime_of n = 42.
Proof.
  assert (BlobAt (Src Sample.add_blob) ≠ "") as Hblob by discriminate.
  assert (minInt64 ≤ ModTime (Src Sample.add_blob) ≤ maxInt64) as Hrange
    by (vm_compute; split; discriminate).
  split; [split; [split; reflexivity|]; split; [exact Hblob|exact Hrange]|].
  eexists. split; [vm_compute; reflexivity|].
  refine (stamp_after_success 1 Sample.g 0%nat Sample.add_blob Sample.mach _
            (or_intror (conj eq_refl eq_refl)) (or_introl Hblob) Hrange _).
  vm_compute. reflexivity.
Defined.

Lemma localDelete_missing_path_witness :
  (cleaned (BlobAt (Dest Sample.del_gone)) = true ∧
   nodes (world Sample.mach) !! BlobAt (Dest Sample.del_gone) = None ∧
   file_on_path (BlobAt (Dest Sample.del_gone)) (nodes (world Sample.mach)) = false ∧
   wgs Sample.mach !! 0%nat = Some 1 ∧ 0 < 1) ∧
  ∃ m',
    run 1 (localDelete Sample.g 0%nat Sample.del_gone) Sample.mach = Some (None, m') ∧
    nodes (world m') = nodes (world Sample.mach) ∧
    ∀ tid' wg' n',
      wgs m' !! wg' = Some n' →
      0 < n' →
      ∃ m'',
        run tid' (localDelete Sample.g wg' Sample.del_gone) m' = Some (None, m'') ∧
        nodes (world m'') = nodes (world Sample.mach).
Proof.
  split; [repeat split; try reflexivity; lia|].
  exact (localDelete_missing_path 1 Sample.g 0%nat Sample.del_gone Sample.mach 1
           eq_refl eq_refl eq_refl eq_refl ltac:(lia)).
Defined.

(** The Add of a raw blob in the sample world: the parent directory is
    made, the content is written under the logical path and stamped. *)
Example add_blob_sample :
  ∃ m',
    run 1 (localAdd Sample.g 0%nat Sample.add_blob) Sample.mach = Some (None, m') ∧
    nodes (world m') !! "/home/u/a/b.bin" = Some (NFile "hello" 42) ∧
    stdout (world m') = [] ∧
    fds (world m') = ∅ ∧ blobs (world m') = ∅.
Proof.
  eexists. split; [vm_compute; reflexivity|].
  repeat split; vm_compute; reflexivity.
Qed.

(** The Add of a Google document in the sample world: the export is
    written under the suffixed name and announced, both handles are
    released, and the handler then fails to stamp the logical path, which
    names no entry. *)
Example add_document_sample :
  ∃ m',
    run 1 (localAdd Sample.g 0%nat Sample.add_doc) Sample.mach =
      Some (Some (PathError "chtimes" "/home/u/a/report" ENOENT), m') ∧
    nodes (world m') !! "/home/u/a/report.docx" = Some (NFile "DOCX" 105) ∧
    nodes (world m') !! "/home/u/a/report" = None ∧
    stdout (world m') = ["Exported a/report"; " to:  a/report.docx" ++ newline] ∧
    fds (world m') = ∅ ∧ blobs (world m') = ∅.
Proof.
  eexists. split; [vm_compute; reflexivity|].
  repeat split; vm_compute; reflexivity.
Qed.

(** ** Where the code departs from the stated claims *)

(** C4 as stated fails in four ways, each a handler that returns [nil]
    and leaves a local entry whose time is not [Src.ModTime].  The Add of a
    directory returns after [os.Mkdir], and the new directory carries the
    time of its creation (101, not 42).  The Modify of a document writes
    the export under the suffixed name, which keeps the time of the write
    (104, not 42), and stamps the file that has the logical name.  A zero
    [Src.ModTime] is skipped by [os.Chtimes], so the entry keeps the time
    it had (7).  An instant past what an [int64] of nanoseconds holds is
    stored wrapped around. *)
Lemma success_without_ModTime :
  (IsDir (Src Sample.add_dir) = true ∧
   ∃ m',
     run 1 (localAdd Sample.g 0%nat Sample.add_dir) Sample.mach = Some (None, m') ∧
     nodes (world m') !! AbsPathOf Sample.g (Path Sample.add_dir) = Some (NDir 101) ∧
     mtime_of (NDir 101) ≠ ModTime (Src Sample.add_dir)) ∧
  (∃ m',
     run 1 (localMod Sample.g 0%nat Sample.mod_doc_at_f) Sample.mach = Some (None, m') ∧
     localEntry Sample.g Sample.mod_doc_at_f = "/home/u/f.docx" ∧
     nodes (world m') !! "/home/u/f.docx" = Some (NFile "DOCX" 104) ∧
     nodes (world m') !! "/home/u/f" = Some (NFile "x" 42) ∧
     mtime_of (NFile "DOCX" 104) ≠ ModTime (Src Sample.mod_doc_at_f)) ∧
  (∃ m',
     run 1 (localMod Sample.g 0%nat Sample.mod_zero_time) Sample.mach = Some (None, m') ∧
     nodes (world m') !! localEntry Sample.g Sample.mod_zero_time
       = Some (NFile "old" 7) ∧
     mtime_of (NFile "old" 7) ≠ ModTime (Src Sample.mod_zero_time)) ∧
  (∃ m',
     run 1 (localMod Sample.g 0%nat Sample.mod_far_time) Sample.mach = Some (None, m') ∧
     nodes (world m') !! localEntry Sample.g Sample.mod_far_time
       = Some (NFile "old" minInt64) ∧
     mtime_of (NFile "old" minInt64) ≠ ModTime (Src Sample.mod_far_time)).
Proof.
  split; [split; [reflexivity|]|split; [|split]];
    eexists; (split; [vm_compute; reflexivity|]);
    repeat split; try (vm_compute; reflexivity); discriminate.
Qed.

(** C1 as stated fails for the deferred [g.taskDone()] of a handler,
    which runs after its [wg.Done].  With five changes and the schedule
    [Sample.overtaking], the task of change 0 (first batch, thread 1) has
    called [wg.Done] but has not come to its end when thread 0 makes the
    [go] statement of change 4 (second batch): its [taskDone] call is the
    next entry of the log. *)
Lemma next_batch_before_taskDone :
  let s := exec Sample.g (take 19 Sample.overtaking)
             (init Sample.g Sample.five Sample.disk) in
  let s' := exec Sample.g Sample.overtaking (init Sample.g Sample.five Sample.disk) in
  (0 / 4 < 4 / 4)%nat ∧
  Sample.five !! 4%nat = Some Sample.mod_bare ∧
  length (log (mach s)) = 19%nat ∧
  log (mach s) !! 18%nat =
    Some (Ev 0 (sync (go_handler OpMod 1%nat Sample.mod_bare)) tt) ∧
  dispatched (log (mach s)) = 5%nat ∧
  signalled 1 (log (mach s)) = true ∧
  returned <$> threads s !! 1%nat = Some false ∧
  log (mach s') = (log (mach s) ++ [Ev 1 (sys taskDone) tt])%list.
Proof.
  cbv zeta. split; [vm_compute; lia|].
  repeat split; vm_compute; reflexivity.
Qed.

(** C10 as stated fails when a regular file stands on the path:
    ["/home/u/f/x"] names nothing, since [f] is a file, and [os.RemoveAll]
    answers ENOTDIR, which [localDelete] returns. *)
Lemma delete_under_file_fails :
  nodes (world Sample.mach) !! BlobAt (Dest Sample.del_under_file) = None ∧
  nodes (world Sample.mach) !! "/home/u/f" = Some (NFile "x" 7) ∧
  ∃ m',
    run 1 (localDelete Sample.g 0%nat Sample.del_under_file) Sample.mach =
      Some (Some (PathError "unlinkat" "/home/u/f/x" ENOTDIR), m') ∧
    Some (PathError "unlinkat" "/home/u/f/x" ENOTDIR) ≠ None.
Proof.
  split; [vm_compute; reflexivity|]. split; [vm_compute; reflexivity|].
  eexists. split; [vm_compute; reflexivity|]. discriminate.
Qed.

(** C7 as stated fails when a file stands where the parent directory
    should be: [os.MkdirAll] answers ENOTDIR, which no existing directory
    causes, and [localAdd] goes on to [os.Create] all the same; the error it
    returns in the end is the one of [os.Create], the one of [os.MkdirAll]
    is lost. *)
Lemma add_under_file_ignores_mkdir_error :
  ∃ r m' e,
    run 1 (localAdd Sample.g 0%nat Sample.add_under_file) Sample.mach = Some (r, m') ∧
    e = PathError "mkdir" "/home/u/f" ENOTDIR ∧
    log m' !! 0%nat = Some (Ev 1 (sys (os_MkdirAll "/home/u/f" dirPerm)) (Some e)) ∧
    is_create <$> log m' !! 1%nat = Some true ∧
    r = Some (PathError "open" "/home/u/f/x" ENOTDIR) ∧
    r ≠ Some e.
Proof.
  eexists _, _, _. split; [vm_compute; reflexivity|].
  split; [reflexivity|]. split; [vm_compute; reflexivity|].
  split; [vm_compute; reflexivity|]. split; [reflexivity|]. discriminate.
Qed.

(** C8 as stated fails: for a change with an empty [BlobAt] and a [nil]
    [ExportLinks], [localMod] creates no file at all (no ".txt" export):
    its three calls are [os.Chtimes] and the two deferred ones. *)
Lemma bare_change_is_not_exported :
  IsDir (Src Sample.mod_bare) = false ∧
  BlobAt (Src Sample.mod_bare) = "" ∧
  ExportLinks (Src Sample.mod_bare) = None ∧
  ∃ r m',
    run 1 (localMod Sample.g 0%nat Sample.mod_bare) Sample.mach = Some (r, m') ∧
    existsb is_create (log m') = false ∧
    length (log m') = 3%nat ∧
    nodes (world m') !! AbsPathOf Sample.g (Path Sample.mod_bare ++ ".txt") = None.
Proof.
  repeat (split; [reflexivity|]).
  eexists _, _. split; [vm_compute; reflexivity|].
  repeat split; vm_compute; reflexivity.
Qed.

(** ** The loop of [playPullChangeList] *)

Lemma playLoop_step (cl : list Change) :
  playLoop cl =
  if (length (splitNext cl).1 =? 0)%nat then playEnd
  else playBatch (splitNext cl).1 (playLoop (splitNext cl).2).
Proof.
  funelim (playLoop cl).
  - rewrite e. reflexivity.
  - rewrite Hlen. reflexivity.
Qed.

Lemma batches_step (cl : list Change) :
  batches cl =
  if (length (splitNext cl).1 =? 0)%nat then []
  else (splitNext cl).1 :: batches (splitNext cl).2.
Proof.
  funelim (batches cl).
  - rewrite e. reflexivity.
  - rewrite Hlen. reflexivity.
Qed.

Lemma splitNext_app (cl : list Change) : ((splitNext cl).1 ++ (splitNext cl).2)%list = cl.
Proof.
  unfold splitNext. destruct (maxNumOfConcPullTasks <? length cl)%nat; simpl.
  - apply take_drop.
  - apply app_nil_r.
Qed.

Lemma splitNext_length (cl : list Change) : (length (splitNext cl).1 ≤ 4)%nat.
Proof.
  unfold splitNext, maxNumOfConcPullTasks.
  destruct (Nat.ltb_spec 4 (length cl)); simpl; [rewrite length_take|]; lia.
Qed.

Lemma splitNext_full (cl : list Change) :
  (splitNext cl).2 ≠ [] → length (splitNext cl).1 = 4%nat.
Proof.
  unfold splitNext, maxNumOfConcPullTasks.
  destruct (Nat.ltb_spec 4 (length cl)); simpl; [rewrite length_take; lia|congruence].
Qed.

Lemma splitNext_empty (cl : list Change) :
  (length (splitNext cl).1 =? 0)%nat = true → cl = [].
Proof.
  intros Hz. apply Nat.eqb_eq in Hz. revert Hz.
  unfold splitNext, maxNumOfConcPullTasks.
  destruct (Nat.ltb_spec 4 (length cl)); simpl; [rewrite length_take; lia|].
  destruct cl; [reflexivity|discriminate].
Qed.

Lemma splitNext_shorter (cl : list Change) :
  (length (splitNext cl).1 =? 0)%nat = false →
  (length (splitNext cl).2 < length cl)%nat.
Proof.
  intros Hz. apply Nat.eqb_neq in Hz. revert Hz.
  unfold splitNext, maxNumOfConcPullTasks.
  destruct (Nat.ltb_spec 4 (length cl)); simpl; [rewrite length_drop|]; lia.
Qed.

(** The loop plays the batches in order. *)
Lemma playLoop_batches (cl : list Change) :
  playLoop cl = foldr playBatch playEnd (batches cl).
Proof.
  remember (length cl) as n eqn:Hn. revert cl Hn.
  induction n as [n IH] using lt_wf_ind. intros cl ->.
  rewrite playLoop_step, batches_step.
  destruct (length (splitNext cl).1 =? 0)%nat eqn:Hz; [reflexivity|].
  simpl. f_equal. eapply IH; [|reflexivity]. apply splitNext_shorter, Hz.
Qed.

Lemma batches_concat (cl : list Change) : concat (batches cl) = cl.
Proof.
  remember (length cl) as n eqn:Hn. revert cl Hn.
  induction n as [n IH] using lt_wf_ind. intros cl ->.
  rewrite batches_step.
  destruct (length (splitNext cl).1 =? 0)%nat eqn:Hz.
  - symmetry. apply splitNext_empty, Hz.
  - simpl. rewrite (IH _ (splitNext_shorter cl Hz) _ eq_refl). apply splitNext_app.
Qed.

Lemma batches_sizes (cl : list Change) :
  Forall (λ b, (0 < length b ≤ maxNumOfConcPullTasks)%nat) (batches cl).
Proof.
  remember (length cl) as n eqn:Hn. revert cl Hn.
  induction n as [n IH] using lt_wf_ind. intros cl ->.
  rewrite batches_step.
  destruct (length (splitNext cl).1 =? 0)%nat eqn:Hz; constructor.
  - apply Nat.eqb_neq in Hz. pose proof (splitNext_length cl).
    unfold maxNumOfConcPullTasks. lia.
  - eapply IH; [|reflexivity]. apply splitNext_shorter, Hz.
Qed.

(** ** Handlers only make calls that leave the program, and few of them *)

Lemma work_mono {R : Type} (p : Prog R) (n n' : nat) :
  work p n → (n ≤ n')%nat → work p n'.
Proof.
  intros Hw. revert n'. induction Hw as [r n|X c k n _ IH]; intros n' Hle.
  - apply work_ret.
  - destruct n' as [|n']; [lia|]. apply work_call. intros x. apply IH. lia.
Qed.

Lemma work_download (g : Commands) (c : Change) : work (download g c) 7.
Proof. open_prog. repeat work_step. Qed.

Lemma work_localMod_body (g : Commands) (c : Change) :
  work
    (err ← (if hasContent (Src c) then download g c else mret None);
     match err with
     | Some e => mret (Some e)
     | None =>
         call (os_Chtimes (AbsPathOf g (Path c)) (ModTime (Src c)) (ModTime (Src c)))
     end) 9.
Proof. open_prog. repeat work_step. Qed.

Lemma handler_gstate (g : Commands) (op : OpKind) (wg : WgRef) (c : Change) :
  gstate (handler g op wg c)
    {| gh_wg := wg; gh_signalled := false; gh_cost := handler_cost |}.
Proof.
  destruct op; simpl; unfold localAdd, localMod, localDelete;
    apply (gs_running wg _ 9).
  - open_prog. repeat work_step.
  - apply work_localMod_body.
  - open_prog. repeat work_step.
Qed.

(** ** Bookkeeping on ghosts and logs *)

Lemma unsignalled_app (a b : list Ghost) :
  unsignalled (a ++ b) = (unsignalled a + unsignalled b)%nat.
Proof. induction a as [|x a IH]; simpl; [reflexivity|rewrite IH; lia]. Qed.

Lemma total_cost_app (a b : list Ghost) :
  total_cost (a ++ b) = (total_cost a + total_cost b)%nat.
Proof. induction a as [|x a IH]; simpl; [reflexivity|rewrite IH; lia]. Qed.

Lemma unsignalled_insert (info : list Ghost) (i : nat) (x y : Ghost) :
  info !! i = Some x →
  (unsignalled (<[i:=y]> info) + (if gh_signalled x then 0 else 1) =
   unsignalled info + (if gh_signalled y then 0 else 1))%nat.
Proof.
  revert i. induction info as [|z info IH]; intros [|i] Hi; simpl in *;
    try discriminate.
  - injection Hi as ->. lia.
  - specialize (IH i Hi). lia.
Qed.

Lemma total_cost_insert (info : list Ghost) (i : nat) (x y : Ghost) :
  info !! i = Some x →
  (total_cost (<[i:=y]> info) + gh_cost x = total_cost info + gh_cost y)%nat.
Proof.
  revert i. induction info as [|z info IH]; intros [|i] Hi; simpl in *;
    try discriminate.
  - injection Hi as ->. lia.
  - specialize (IH i Hi). lia.
Qed.

Lemma unsignalled_zero (info : list Ghost) :
  unsignalled info = 0%nat ↔ all_signalled info.
Proof.
  unfold all_signalled. induction info as [|x info IH]; simpl.
  - split; [constructor|reflexivity].
  - rewrite Forall_cons, <- IH. destruct (gh_signalled x); simpl.
    + split; [intros Hu; split; [reflexivity|exact Hu]|intros [_ Hu]; exact Hu].
    + split; [discriminate|intros [Hx _]; discriminate].
Qed.

Lemma unsignalled_pos (info : list Ghost) (i : nat) (x : Ghost) :
  info !! i = Some x → gh_signalled x = false → (0 < unsignalled info)%nat.
Proof.
  intros Hi Hx. destruct (unsignalled info) eqn:E; [|lia].
  apply unsignalled_zero in E. unfold all_signalled in E.
  rewrite Forall_lookup in E. specialize (E i x Hi). congruence.
Qed.

Lemma all_signalled_insert (info : list Ghost) (i : nat) (y : Ghost) :
  all_signalled info → gh_signalled y = true → all_signalled (<[i:=y]> info).
Proof. intros Ha Hy. apply Forall_insert; assumption. Qed.

Lemma all_signalled_take_insert (info : list Ghost) (b i : nat) (x y : Ghost) :
  info !! i = Some x →
  (gh_signalled x = true → gh_signalled y = true) →
  all_signalled (take b info) → all_signalled (take b (<[i:=y]> info)).
Proof.
  unfold all_signalled. rewrite !Forall_lookup. intros Hi Hy Ha j z Hj.
  apply lookup_take_Some in Hj as [Hj Hlt].
  destruct (decide (i = j)) as [->|Hne].
  - rewrite list_lookup_insert_eq in Hj by (eapply lookup_lt_Some; eassumption).
    injection Hj as <-. apply Hy. apply (Ha j x).
    apply lookup_take_Some. split; assumption.
  - rewrite list_lookup_insert_ne in Hj by assumption.
    apply (Ha j z). apply lookup_take_Some. split; assumption.
Qed.

Lemma dispatched_app (a b : list Event) :
  dispatched (a ++ b) = (dispatched a + dispatched b)%nat.
Proof. unfold dispatched. rewrite filter_app, length_app. reflexivity. Qed.

Lemma dispatched_snoc (evs : list Event) (ev : Event) :
  dispatched (evs ++ [ev]) = (dispatched evs + (if is_go ev then 1 else 0))%nat.
Proof.
  rewrite dispatched_app. f_equal. unfold dispatched.
  rewrite filter_cons, filter_nil. destruct (is_go ev); case_decide; simpl; congruence.
Qed.

Lemma signalled_app (tid : nat) (a b : list Event) :
  signalled tid (a ++ b) = signalled tid a || signalled tid b.
Proof. apply existsb_app. Qed.

Lemma signalled_snoc_mono (tid : nat) (evs : list Event) (ev : Event) :
  signalled tid evs = true → signalled tid (evs ++ [ev]) = true.
Proof. intros Hs. rewrite signalled_app, Hs. reflexivity. Qed.

Lemma go_changes_snoc (evs : list Event) (ev : Event) :
  go_changes (evs ++ [ev]) = (go_changes evs ++ option_list (go_change ev))%list.
Proof.
  unfold go_changes. rewrite omap_app. simpl.
  destruct (go_change ev); reflexivity.
Qed.

Lemma div4_bound (a q : nat) : (a < 4 * q + 4 → a / 4 ≤ q)%nat.
Proof.
  intros Ha. assert (a / 4 < q + 1)%nat; [|lia].
  apply Nat.Div0.div_lt_upper_bound. lia.
Qed.

Lemma div4_base (base i : nat) :
  (base mod 4 = 0 → base ≤ i → base ≤ 4 * (i / 4))%nat.
Proof.
  intros Hm Hle.
  pose proof (Nat.div_mod_eq base 4) as Hb.
  pose proof (Nat.Div0.div_le_mono base i 4 Hle). lia.
Qed.

Lemma div4_lt_base (base i d : nat) :
  (base mod 4 = 0 → base ≤ d → d < base + 4 → i / 4 < d / 4 → i < base)%nat.
Proof.
  intros Hm Hle Hlt Hdiv.
  pose proof (Nat.div_mod_eq base 4) as Hb.
  assert (d / 4 ≤ base / 4)%nat as Hd by (apply div4_bound; lia).
  pose proof (Nat.div_mod_eq i 4) as Hi.
  pose proof (Nat.mod_upper_bound i 4 ltac:(lia)). lia.
Qed.

(** Appending a call to a log that respects the barrier. *)
Lemma barrier_snoc (evs : list Event) (e : Event) :
  barrier evs →
  (∀ i, tid_of e = S i →
        is_taskDone e = true ∨ (dispatched evs ≤ 4 * (i / 4) + 4)%nat) →
  (is_go e = true →
   ∀ i, (i / 4 < dispatched evs / 4)%nat →
        signalled (S i) evs = true ∧ tid_of e ≠ S i) →
  barrier (evs ++ [e]).
Proof.
  intros Hbar Hlate Hgo t1 ev t2 i Hsplit Hev Hlt.
  destruct t2 as [|e' t2 _] using rev_ind.
  - apply app_inj_tail in Hsplit as [-> ->].
    destruct (Hgo Hev i Hlt) as [Hs Hne]. split; [exact Hs|].
    constructor; [|constructor]. intros Htid. contradiction.
  - rewrite app_comm_cons, app_assoc in Hsplit.
    apply app_inj_tail in Hsplit as [-> ->].
    destruct (Hbar t1 ev t2 i eq_refl Hev Hlt) as [Hs Hall].
    split; [exact Hs|].
    rewrite app_comm_cons. apply Forall_app. split; [exact Hall|].
    constructor; [|constructor]. intros Htid.
    destruct (Hlate i Htid) as [Hd|Hd]; [exact Hd|].
    exfalso. rewrite dispatched_app in Hd.
    assert (dispatched (ev :: t2) ≥ 1)%nat as Hone.
    { unfold dispatched. rewrite filter_cons. case_decide; [simpl; lia|congruence]. }
    assert (dispatched t1 / 4 ≤ i / 4)%nat by (apply div4_bound; lia). lia.
Qed.

(** ** The invariant of a pull *)

Section Pull.
Context {W : Type} `{World W} (g : Commands) (cl : list Change).

Lemma perform_sys (tid : nat) {X : Type} (c : Sys X) (m : Machine W) :
  perform tid (sys c) m =
  Some ((sys_call c (world m)).1,
        {| wgs := wgs m; world := (sys_call c (world m)).2;
           log := (log m ++ [Ev tid (sys c) (sys_call c (world m)).1])%list |}).
Proof. simpl. destruct (sys_call c (world m)); reflexivity. Qed.

Lemma step_main (s : State W) (gs : list (Prog error)) {X : Type}
    (e : Eff X) (k : X → Prog error) :
  threads s = Call e k :: gs →
  step g 0 s =
  match perform 0 e (mach s) with
  | Some (x, m') => Some {| threads := (k x :: gs ++ spawned g e)%list; mach := m' |}
  | None => None
  end.
Proof.
  intros Hth. unfold step. rewrite Hth. simpl.
  destruct (perform 0 e (mach s)) as [[x m']|]; reflexivity.
Qed.

Lemma step_goroutine (s : State W) (main : Prog error) (gs : list (Prog error))
    (i : nat) {X : Type} (e : Eff X) (k : X → Prog error) :
  threads s = main :: gs →
  gs !! i = Some (Call e k) →
  step g (S i) s =
  match perform (S i) e (mach s) with
  | Some (x, m') =>
      Some {| threads := (main :: <[i := k x]> gs ++ spawned g e)%list; mach := m' |}
  | None => None
  end.
Proof.
  intros Hth Hi. unfold step. rewrite Hth. simpl. rewrite Hi.
  destruct (perform (S i) e (mach s)) as [[x m']|]; reflexivity.
Qed.

Lemma Inv_init (w : W) : Inv g cl (init g cl w) (15 * length cl + 2).
Proof.
  apply (Inv_intro g cl _ _ PStart [] []); simpl.
  - reflexivity.
  - constructor.
  - reflexivity.
  - lia.
  - split; reflexivity.
  - unfold loop_cost. lia.
  - split; [reflexivity|]. split; [reflexivity|]. split.
    + intros t1 ev t2 i Hsplit. destruct t1; discriminate.
    + intros i x Hi. discriminate.
Qed.

(** A system call of thread 0 keeps the log in order. *)
Lemma log_ok_main_sys (evs : list Event) (info : list Ghost) {X : Type}
    (e : Eff X) (x : X) :
  is_go (Ev 0 e x) = false →
  log_ok cl evs info → log_ok cl (evs ++ [Ev 0 e x]) info.
Proof.
  intros Hngo (Hd & Hc & Hb & Hs). split; [|split; [|split]].
  - rewrite dispatched_snoc, Hngo. lia.
  - rewrite go_changes_snoc.
    destruct e as [c|c]; [|destruct c]; simpl in *; try discriminate;
      rewrite app_nil_r; exact Hc.
  - apply barrier_snoc; [exact Hb| |].
    + intros i Hi. discriminate.
    + intros Hgo. congruence.
  - intros i y Hi Hy. apply signalled_snoc_mono. eapply Hs; eassumption.
Qed.

Lemma Inv_step_main (s s' : State W) (n : nat) :
  Inv g cl s n → step g 0 s = Some s' → ∃ n', (n' < n)%nat ∧ Inv g cl s' n'.
Proof.
  intros [ph gs info Hth Hgs Hpend Hlen Hph Hcost Hlog] Hstep.
  pose proof (Forall2_length _ _ _ Hgs) as Hlgs.
  destruct ph as [|rest|wg next rest|wg base todo rest|];
    cbn [main_prog pending phase_ok main_cost] in *.
  - (* before taskStart *)
    destruct Hph as [-> Hws]. destruct gs; [|discriminate].
    rewrite (step_main s [] (sys (taskStart (length cl))) (λ _, playLoop cl) Hth)
      in Hstep.
    rewrite perform_sys in Hstep. injection Hstep as <-.
    exists (n - 1)%nat. split; [lia|].
    apply (Inv_intro g cl _ _ (PLoop cl) [] []);
      cbn [main_prog pending phase_ok main_cost threads mach wgs log].
    + reflexivity.
    + constructor.
    + reflexivity.
    + simpl; lia.
    + split; [constructor|left; reflexivity].
    + simpl in *. lia.
    + apply log_ok_main_sys; [reflexivity|exact Hlog].
  - (* top of the loop *)
    rewrite playLoop_step in Hth.
    destruct (length (splitNext rest).1 =? 0)%nat eqn:Hz.
    + (* no change left *)
      rewrite (step_main s gs (sys taskFinish) (λ _, Ret None) Hth) in Hstep.
      rewrite perform_sys in Hstep. injection Hstep as <-.
      apply splitNext_empty in Hz. subst rest.
      exists (n - 1)%nat. split; [unfold loop_cost in Hcost; simpl in Hcost; lia|].
      apply (Inv_intro g cl _ _ PDone gs info);
        cbn [main_prog pending phase_ok main_cost threads mach wgs log].
      * rewrite app_nil_r. reflexivity.
      * exact Hgs.
      * exact Hpend.
      * exact Hlen.
      * apply Hph.
      * unfold loop_cost in Hcost. simpl in *. lia.
      * apply log_ok_main_sys; [reflexivity|exact Hlog].
    + (* a new batch *)
      rewrite (step_main s gs (sync wg_New)
                 (λ wg, main_prog g cl (PAdd wg (splitNext rest).1 (splitNext rest).2))
                 Hth) in Hstep.
      simpl in Hstep. injection Hstep as <-.
      pose proof (splitNext_app rest) as Happ.
      pose proof (splitNext_length rest) as Hle.
      pose proof (splitNext_full rest) as Hfull.
      apply Nat.eqb_neq in Hz.
      assert (length rest = length (splitNext rest).1 + length (splitNext rest).2)%nat
        as Hlr by (rewrite <- Happ at 1; apply length_app).
      exists (n - 1)%nat. split; [unfold loop_cost in Hcost; lia|].
      apply (Inv_intro g cl _ _
               (PAdd (length (wgs (mach s))) (splitNext rest).1 (splitNext rest).2)
               gs info);
        cbn [main_prog pending phase_ok main_cost threads mach wgs log].
      * rewrite app_nil_r. reflexivity.
      * exact Hgs.
      * rewrite Happ. exact Hpend.
      * exact Hlen.
      * destruct Hph as [Hall Hmod].
        split; [exact Hall|]. split.
        { destruct Hmod as [Hmod| ->]; [exact Hmod|]. simpl in Hz. lia. }
        split; [lia|]. split; [exact Hfull|].
        rewrite lookup_app_r by lia. rewrite Nat.sub_diag. reflexivity.
      * unfold loop_cost, handler_cost in *. lia.
      * apply log_ok_main_sys; [reflexivity|exact Hlog].
  - (* wg.Add *)
    destruct Hph as (Hall & Hmod & Hnext & Hfull & Hwg).
    rewrite (step_main s gs (sync (wg_Add wg (Z.of_nat (length next))))
               (λ _, main_prog g cl (PDisp wg (length info) next rest)) Hth) in Hstep.
    simpl in Hstep. unfold wg_shift in Hstep. rewrite Hwg in Hstep. simpl in Hstep.
    destruct (0 + Z.of_nat (length next) <? 0) eqn:Hneg; [apply Z.ltb_lt in Hneg; lia|].
    simpl in Hstep. injection Hstep as <-.
    exists (n - 1)%nat. split; [lia|].
    apply (Inv_intro g cl _ _ (PDisp wg (length info) next rest) gs info);
      cbn [main_prog pending phase_ok main_cost threads mach wgs log].
    + rewrite app_nil_r. reflexivity.
    + exact Hgs.
    + exact Hpend.
    + exact Hlen.
    + split; [exact Hmod|]. split; [lia|]. split; [lia|].
      split; [intros Hr; rewrite (Hfull Hr); lia|].
      split; [rewrite firstn_all; exact Hall|].
      split.
      { unfold all_signalled in Hall. eapply Forall_impl; [exact Hall|].
        simpl. intros x Hx Hx'. congruence. }
      rewrite list_lookup_insert_eq by (eapply lookup_lt_Some; exact Hwg).
      apply unsignalled_zero in Hall. rewrite Hall. f_equal. lia.
    + lia.
    + apply log_ok_main_sys; [reflexivity|exact Hlog].
  - (* go statements and wg.Wait *)
    destruct Hph as (Hmod & Hbase & Hsz & Hfull & Hold & Hcur & Hwg).
    destruct Hlog as (Hd & Hc & Hb & Hs).
    destruct todo as [|c todo]; cbn [dispatch foldr length] in *.
    + (* wg.Wait *)
      rewrite (step_main s gs (sync (wg_Wait wg)) (λ _, playLoop rest) Hth) in Hstep.
      simpl in Hstep. rewrite Hwg in Hstep. simpl in Hstep.
      destruct (Z.of_nat (unsignalled info) =? 0) eqn:Hzero; [|discriminate].
      simpl in Hstep. injection Hstep as <-.
      apply Z.eqb_eq in Hzero.
      assert (all_signalled info) as Hall by (apply unsignalled_zero; lia).
      exists (n - 1)%nat. split; [lia|].
      apply (Inv_intro g cl _ _ (PLoop rest) gs info);
        cbn [main_prog pending phase_ok main_cost threads mach wgs log].
      * rewrite app_nil_r. reflexivity.
      * exact Hgs.
      * exact Hpend.
      * exact Hlen.
      * split; [exact Hall|]. destruct rest as [|c rest]; [right; reflexivity|].
        left. rewrite Nat.add_0_r in Hfull. rewrite Hfull by discriminate.
        rewrite Nat.Div0.add_mod, Hmod. reflexivity.
      * lia.
      * apply log_ok_main_sys; [reflexivity|].
        exact (conj Hd (conj Hc (conj Hb Hs))).
    + (* go *)
      rewrite (step_main s gs (sync (go_handler (Op c) wg c))
                 (λ _, main_prog g cl (PDisp wg base todo rest)) Hth) in Hstep.
      simpl in Hstep. injection Hstep as <-.
      set (gh := {| gh_wg := wg; gh_signalled := false; gh_cost := handler_cost |}).
      assert (cl !! length gs = Some c) as Hnth.
      { rewrite <- (Nat.add_0_r (length gs)), <- lookup_drop, Hpend. reflexivity. }
      exists (n - 1)%nat. split; [lia|].
      apply (Inv_intro g cl _ _ (PDisp wg base todo rest)
               (gs ++ [handler g (Op c) wg c]) (info ++ [gh]));
        cbn [main_prog pending phase_ok main_cost threads mach wgs log].
      * reflexivity.
      * apply Forall2_app; [exact Hgs|]. constructor; [|constructor].
        apply handler_gstate.
      * rewrite length_app. simpl.
        replace (drop (length gs + 1) cl) with (drop 1 (drop (length gs) cl))
          by (rewrite drop_drop; f_equal; lia).
        rewrite Hpend. reflexivity.
      * rewrite length_app. simpl. apply lookup_lt_Some in Hnth. lia.
      * rewrite length_app. simpl.
        split; [exact Hmod|]. split; [lia|]. split; [lia|].
        split; [intros Hr; specialize (Hfull Hr); lia|].
        split; [rewrite take_app_le by lia; exact Hold|].
        split; [apply Forall_app; split; [exact Hcur|]; constructor; [|constructor];
                reflexivity|].
        rewrite Hwg. f_equal. rewrite unsignalled_app. simpl. lia.
      * rewrite total_cost_app. simpl. unfold handler_cost in *. lia.
      * unfold log_ok. rewrite length_app. simpl. split; [|split; [|split]].
        { rewrite dispatched_snoc. simpl. lia. }
        { rewrite go_changes_snoc, Hc. simpl.
          rewrite Nat.add_1_r, <- Hlgs. erewrite take_S_r by exact Hnth.
          rewrite fmap_app. reflexivity. }
        { apply barrier_snoc; [exact Hb| |].
          - intros i Hi. discriminate.
          - intros _ i Hi. rewrite Hd in Hi. split; [|discriminate].
            assert (i < base)%nat as Hib
              by (apply (div4_lt_base base i (length info)); lia).
            destruct (lookup_lt_is_Some_2 info i ltac:(lia)) as [x Hx].
            eapply Hs; [exact Hx|].
            unfold all_signalled in Hold. rewrite Forall_lookup in Hold.
            apply (Hold i x). apply lookup_take_Some. split; assumption. }
        { intros i x Hi Hx. apply signalled_snoc_mono.
          apply lookup_app_Some in Hi as [Hi|[_ Hi]].
          - eapply Hs; eassumption.
          - destruct (i - length info)%nat; simpl in Hi; [|discriminate].
            injection Hi as <-. discriminate. }
  - (* returned *)
    unfold step in Hstep. rewrite Hth in Hstep. discriminate.
Qed.

Lemma phase_ok_insert_same (ph : Phase) (ws : list Z) (info : list Ghost)
    (i : nat) (x y : Ghost) :
  info !! i = Some x →
  gh_signalled y = gh_signalled x →
  gh_wg y = gh_wg x →
  phase_ok ph ws info → phase_ok ph ws (<[i:=y]> info).
Proof.
  intros Hi Hflag Hwg.
  assert (all_signalled info → all_signalled (<[i:=y]> info)) as Hall.
  { intros Ha. apply all_signalled_insert; [exact Ha|]. rewrite Hflag.
    unfold all_signalled in Ha. rewrite Forall_lookup in Ha. eapply Ha, Hi. }
  destruct ph as [|rest|wg next rest|wg base todo rest|]; simpl;
    rewrite ?length_insert.
  - intros [-> _]. discriminate.
  - intros [Ha Hm]. split; auto.
  - intros (Ha & Hrest). split; auto.
  - intros (Hmod & Hbase & Hsz & Hfull & Hold & Hcur & Hcnt).
    split; [exact Hmod|]. split; [exact Hbase|]. split; [exact Hsz|].
    split; [exact Hfull|]. split.
    { eapply all_signalled_take_insert; [exact Hi| |exact Hold]. congruence. }
    split.
    { apply Forall_insert; [exact Hcur|]. rewrite Hflag, Hwg.
      rewrite Forall_lookup in Hcur. eapply Hcur, Hi. }
    rewrite Hcnt. f_equal. f_equal. f_equal.
    pose proof (unsignalled_insert info i x y Hi) as Hu. rewrite Hflag in Hu. lia.
  - exact Hall.
Qed.

Lemma unsignalled_in_batch (ph : Phase) (ws : list Z) (info : list Ghost)
    (i : nat) (x : Ghost) :
  phase_ok ph ws info →
  info !! i = Some x →
  gh_signalled x = false →
  ∃ wg base todo rest,
    ph = PDisp wg base todo rest ∧ (base ≤ i)%nat ∧ gh_wg x = wg.
Proof.
  intros Hph Hi Hx.
  assert (all_signalled info → False) as Hno.
  { unfold all_signalled. rewrite Forall_lookup. intros Ha.
    specialize (Ha i x Hi). congruence. }
  destruct ph as [|rest|wg next rest|wg base todo rest|]; simpl in Hph.
  - destruct Hph as [-> _]. discriminate.
  - destruct Hph as [Ha _]. contradiction.
  - destruct Hph as [Ha _]. contradiction.
  - destruct Hph as (_ & _ & _ & _ & Hold & Hcur & _).
    exists wg, base, todo, rest. split; [reflexivity|]. split.
    + destruct (Nat.le_gt_cases base i) as [Hle|Hlt]; [exact Hle|exfalso].
      unfold all_signalled in Hold. rewrite Forall_lookup in Hold.
      assert (take base info !! i = Some x) as Ht
        by (apply lookup_take_Some; split; assumption).
      specialize (Hold i x Ht). congruence.
    + rewrite Forall_lookup in Hcur. exact (Hcur i x Hi Hx).
  - contradiction.
Qed.

(** A call of a goroutine keeps the log in order. *)
Lemma log_ok_goroutine (evs : list Event) (info info' : list Ghost) (i : nat)
    {X : Type} (e : Eff X) (x : X) :
  is_go (Ev (S i) e x) = false →
  length info' = length info →
  (is_taskDone (Ev (S i) e x) = true ∨ (dispatched evs ≤ 4 * (i / 4) + 4)%nat) →
  (∀ j y, info' !! j = Some y → gh_signalled y = true →
          signalled (S j) (evs ++ [Ev (S i) e x]) = true) →
  log_ok cl evs info → log_ok cl (evs ++ [Ev (S i) e x]) info'.
Proof.
  intros Hngo Hlen Hlate Hsig (Hd & Hc & Hb & Hs). split; [|split; [|split]].
  - rewrite dispatched_snoc, Hngo, Hlen. lia.
  - rewrite go_changes_snoc, Hlen.
    destruct e as [c|c]; [|destruct c]; simpl in *; try discriminate;
      rewrite app_nil_r; exact Hc.
  - apply barrier_snoc; [exact Hb| |].
    + intros j Hj. simpl in Hj. injection Hj as <-. exact Hlate.
    + intros Hgo. congruence.
  - exact Hsig.
Qed.

Lemma signalled_after_insert (evs : list Event) (info : list Ghost) (i : nat)
    (y : Ghost) (ev : Event) :
  (∀ j x, info !! j = Some x → gh_signalled x = true → signalled (S j) evs = true) →
  (gh_signalled y = true → signalled (S i) (evs ++ [ev]) = true) →
  ∀ j x, <[i:=y]> info !! j = Some x → gh_signalled x = true →
         signalled (S j) (evs ++ [ev]) = true.
Proof.
  intros Hs Hy j x Hj Hx. destruct (decide (i = j)) as [->|Hne].
  - apply list_lookup_insert_Some in Hj as [(_ & <- & _)|[Hne _]];
      [exact (Hy Hx)|congruence].
  - rewrite list_lookup_insert_ne in Hj by assumption.
    apply signalled_snoc_mono. eapply Hs; eassumption.
Qed.

Lemma Inv_step_goroutine (s s' : State W) (n i : nat) :
  Inv g cl s n → step g (S i) s = Some s' → ∃ n', (n' < n)%nat ∧ Inv g cl s' n'.
Proof.
  intros [ph gs info Hth Hgs Hpend Hlen Hph Hcost Hlog] Hstep.
  pose proof (Forall2_length _ _ _ Hgs) as Hlgs.
  destruct (gs !! i) as [p|] eqn:Hi;
    [|unfold step in Hstep; rewrite Hth in Hstep; simpl in Hstep;
      rewrite Hi in Hstep; discriminate].
  destruct (Forall2_lookup_l _ _ _ _ _ Hgs Hi) as (gh & Hinfo & Hg).
  destruct Hg as [wg p k Hw|wg r|wg r].
  - (* the body is running or has just returned *)
    destruct (unsignalled_in_batch _ _ _ _ _ Hph Hinfo eq_refl)
      as (wg0 & base & todo & rest & -> & Hbase & Hwgeq).
    simpl in Hwgeq. subst wg0.
    pose proof Hph as (Hmod & Hble & Hsz & Hfull & Hold & Hcur & Hcnt).
    assert (dispatched (log (mach s)) ≤ 4 * (i / 4) + 4)%nat as Hlate.
    { destruct Hlog as (-> & _). pose proof (div4_base base i Hmod Hbase). lia. }
    destruct Hw as [r k|X c kont k Hk].
    + (* wg.Done *)
      rewrite (step_goroutine s _ gs i (sync (wg_Done wg))
                 (λ _, Call (sys taskDone) (λ _, Ret r)) Hth Hi) in Hstep.
      simpl in Hstep. unfold wg_shift in Hstep. rewrite Hcnt in Hstep.
      pose proof (unsignalled_pos info i _ Hinfo eq_refl) as Hpos.
      simpl in Hstep.
      destruct (Z.of_nat (length todo + unsignalled info) + -1 <? 0) eqn:Hneg;
        [apply Z.ltb_lt in Hneg; lia|].
      simpl in Hstep. injection Hstep as <-.
      set (y := {| gh_wg := wg; gh_signalled := true; gh_cost := 1 |}).
      pose proof (unsignalled_insert info i _ y Hinfo) as Hu. simpl in Hu.
      pose proof (total_cost_insert info i _ y Hinfo) as Hc. simpl in Hc.
      exists (n - 1)%nat. split; [simpl in Hcost; lia|].
      apply (Inv_intro g cl _ _ (PDisp wg base todo rest)
               (<[i := Call (sys taskDone) (λ _, Ret r)]> gs) (<[i := y]> info));
        cbn [main_prog pending phase_ok main_cost threads mach wgs log].
      * rewrite app_nil_r. reflexivity.
      * apply Forall2_insert; [exact Hgs|constructor].
      * rewrite length_insert. exact Hpend.
      * rewrite length_insert. exact Hlen.
      * rewrite length_insert.
        split; [exact Hmod|]. split; [exact Hble|]. split; [exact Hsz|].
        split; [exact Hfull|]. split.
        { eapply all_signalled_take_insert; [exact Hinfo|reflexivity|exact Hold]. }
        split.
        { apply Forall_insert; [exact Hcur|]. discriminate. }
        rewrite list_lookup_insert_eq by (eapply lookup_lt_Some; exact Hcnt).
        f_equal. lia.
      * simpl in Hcost. lia.
      * eapply log_ok_goroutine; [reflexivity|apply length_insert| | |exact Hlog].
        { right. exact Hlate. }
        { apply signalled_after_insert; [apply Hlog|].
          intros _. rewrite signalled_app. simpl. rewrite Nat.eqb_refl.
          apply orb_true_r. }
    + (* a call of the body *)
      rewrite (step_goroutine s _ gs i (sys c)
                 (λ x, defer (call taskDone) (defer (rt (wg_Done wg)) (kont x)))
                 Hth Hi) in Hstep.
      rewrite perform_sys in Hstep. injection Hstep as <-.
      set (y := {| gh_wg := wg; gh_signalled := false; gh_cost := k + 2 |}).
      pose proof (total_cost_insert info i _ y Hinfo) as Hc. simpl in Hc.
      exists (n - 1)%nat. split; [simpl in Hcost; lia|].
      apply (Inv_intro g cl _ _ (PDisp wg base todo rest)
               (<[i := defer (call taskDone) (defer (rt (wg_Done wg))
                          (kont (sys_call c (world (mach s))).1))]> gs)
               (<[i := y]> info));
        cbn [main_prog pending main_cost threads mach wgs log].
      * rewrite app_nil_r. reflexivity.
      * apply Forall2_insert; [exact Hgs|]. apply gs_running, Hk.
      * rewrite length_insert. exact Hpend.
      * rewrite length_insert. exact Hlen.
      * eapply phase_ok_insert_same; [exact Hinfo|reflexivity|reflexivity|exact Hph].
      * simpl in Hcost. lia.
      * eapply log_ok_goroutine; [reflexivity|apply length_insert| | |exact Hlog].
        { right. exact Hlate. }
        { apply signalled_after_insert; [apply Hlog|]. discriminate. }
  - (* taskDone *)
    rewrite (step_goroutine s _ gs i (sys taskDone) (λ _, Ret r) Hth Hi) in Hstep.
    rewrite perform_sys in Hstep. injection Hstep as <-.
    set (y := {| gh_wg := wg; gh_signalled := true; gh_cost := 0 |}).
    pose proof (total_cost_insert info i _ y Hinfo) as Hc. simpl in Hc.
    exists (n - 1)%nat. split; [lia|].
    apply (Inv_intro g cl _ _ ph (<[i := Ret r]> gs) (<[i := y]> info));
      cbn [threads mach wgs log].
    + rewrite app_nil_r. reflexivity.
    + apply Forall2_insert; [exact Hgs|constructor].
    + rewrite length_insert. exact Hpend.
    + rewrite length_insert. exact Hlen.
    + eapply phase_ok_insert_same; [exact Hinfo|reflexivity|reflexivity|exact Hph].
    + lia.
    + eapply log_ok_goroutine; [reflexivity|apply length_insert| | |exact Hlog].
      { left. reflexivity. }
      { apply signalled_after_insert; [apply Hlog|].
        intros _. apply signalled_snoc_mono.
        destruct Hlog as (_ & _ & _ & Hs). eapply Hs; [exact Hinfo|reflexivity]. }
  - (* returned *)
    unfold step in Hstep. rewrite Hth in Hstep. simpl in Hstep.
    rewrite Hi in Hstep. discriminate.
Qed.

Lemma Inv_step (s s' : State W) (n tid : nat) :
  Inv g cl s n → step g tid s = Some s' → ∃ n', (n' < n)%nat ∧ Inv g cl s' n'.
Proof.
  destruct tid as [|i]; [apply Inv_step_main|apply Inv_step_goroutine].
Qed.

Lemma exec_cons (tid : nat) (sched : list nat) (s : State W) :
  exec g (tid :: sched) s = exec g sched (default s (step g tid s)).
Proof. reflexivity. Qed.

(** Every schedule keeps the invariant, and its moves are paid for. *)
Lemma Inv_exec (sched : list nat) (s : State W) (n : nat) :
  Inv g cl s n →
  ∃ n', Inv g cl (exec g sched s) n' ∧ (moves g sched s + n' ≤ n)%nat.
Proof.
  revert s n. induction sched as [|tid sched IH]; intros s n Hinv.
  - exists n. split; [exact Hinv|simpl; lia].
  - rewrite exec_cons. simpl moves.
    destruct (step g tid s) as [s1|] eqn:Hstep; simpl.
    + destruct (Inv_step s s1 n tid Hinv Hstep) as (n1 & Hlt & Hinv1).
      destruct (IH s1 n1 Hinv1) as (n' & Hinv' & Hle).
      exists n'. split; [exact Hinv'|lia].
    + apply IH, Hinv.
Qed.

Lemma main_prog_ret (ph : Phase) (r : error) :
  main_prog g cl ph = Ret r → ph = PDone ∧ r = None.
Proof.
  destruct ph as [|rest|wg next rest|wg base todo rest|]; simpl.
  - discriminate.
  - rewrite playLoop_step.
    destruct (length (splitNext rest).1 =? 0)%nat; discriminate.
  - discriminate.
  - destruct todo; discriminate.
  - intros [= <-]. split; reflexivity.
Qed.

(** When thread 0 has returned, it returned [nil], every change has been
    dispatched and every task has signalled the end of its work. *)
Lemma Inv_returned (s : State W) (n : nat) (r : error) :
  Inv g cl s n →
  threads s !! 0%nat = Some (Ret r) →
  r = None ∧
  dispatched (log (mach s)) = length cl ∧
  ∀ i, (i < length cl)%nat → signalled (S i) (log (mach s)) = true.
Proof.
  intros [ph gs info Hth Hgs Hpend Hlen Hph Hcost Hlog] Hmain.
  pose proof (Forall2_length _ _ _ Hgs) as Hlgs.
  rewrite Hth in Hmain. simpl in Hmain. injection Hmain as Hmain.
  apply main_prog_ret in Hmain as [-> ->]. simpl in Hpend, Hph.
  assert (length gs = length cl) as Hall.
  { apply drop_nil_inv in Hpend. lia. }
  destruct Hlog as (Hd & _ & _ & Hs).
  split; [reflexivity|]. split; [lia|].
  intros i Hi. destruct (lookup_lt_is_Some_2 info i ltac:(lia)) as [x Hx].
  eapply Hs; [exact Hx|].
  unfold all_signalled in Hph. rewrite Forall_lookup in Hph. eapply Hph, Hx.
Qed.

Lemma unsignalled_exists (info : list Ghost) :
  (0 < unsignalled info)%nat → ∃ i x, info !! i = Some x ∧ gh_signalled x = false.
Proof.
  induction info as [|y info IH]; simpl; [lia|].
  destruct (gh_signalled y) eqn:Hy.
  - intros Hpos. destruct (IH Hpos) as (i & x & Hi & Hx).
    exists (S i), x. split; assumption.
  - intros _. exists 0%nat, y. split; [reflexivity|exact Hy].
Qed.

(** A goroutine that has not called [wg.Done] can move as long as the
    counter of its wait group is positive. *)
Lemma running_can_step (s : State W) (main : Prog error) (gs : list (Prog error))
    (i : nat) (wg : WgRef) (p : Prog error) (k : nat) (c : Z) :
  threads s = main :: gs →
  gs !! i = Some (defer (call taskDone) (defer (rt (wg_Done wg)) p)) →
  work p k →
  wgs (mach s) !! wg = Some c →
  0 < c →
  is_Some (step g (S i) s).
Proof.
  intros Hth Hi Hw Hwg Hc. destruct Hw as [r k|X sc kont k Hk].
  - rewrite (step_goroutine s _ gs i (sync (wg_Done wg))
               (λ _, Call (sys taskDone) (λ _, Ret r)) Hth Hi).
    simpl. unfold wg_shift. rewrite Hwg. simpl.
    destruct (c + -1 <? 0) eqn:Hneg; [apply Z.ltb_lt in Hneg; lia|].
    simpl. eexists. reflexivity.
  - rewrite (step_goroutine s _ gs i (sys sc)
               (λ x, defer (call taskDone) (defer (rt (wg_Done wg)) (kont x)))
               Hth Hi).
    rewrite perform_sys. eexists. reflexivity.
Qed.

(** No deadlock: when nothing can move, thread 0 has returned [nil],
    every change has its goroutine and every goroutine has returned. *)
Lemma Inv_quiescent (s : State W) (n : nat) :
  Inv g cl s n →
  quiescent g s →
  threads s !! 0%nat = Some (Ret None) ∧
  length (threads s) = S (length cl) ∧
  ∀ i, (i < length cl)%nat → ∃ r, threads s !! S i = Some (Ret r).
Proof.
  intros [ph gs info Hth Hgs Hpend Hlen Hph Hcost Hlog] Hq.
  pose proof (Forall2_length _ _ _ Hgs) as Hlgs.
  pose proof (Hq 0%nat) as Hmain.
  assert (ph = PDone) as ->.
  { destruct ph as [|rest|wg next rest|wg base todo rest|];
      cbn [main_prog phase_ok] in *; [exfalso..|reflexivity].
    - rewrite (step_main s gs (sys (taskStart (length cl))) (λ _, playLoop cl) Hth)
        in Hmain.
      rewrite perform_sys in Hmain. discriminate.
    - rewrite playLoop_step in Hth.
      destruct (length (splitNext rest).1 =? 0)%nat.
      + rewrite (step_main s gs (sys taskFinish) (λ _, Ret None) Hth) in Hmain.
        rewrite perform_sys in Hmain. discriminate.
      + rewrite (step_main s gs (sync wg_New)
                   (λ wg, main_prog g cl (PAdd wg (splitNext rest).1 (splitNext rest).2))
                   Hth) in Hmain.
        discriminate.
    - destruct Hph as (_ & _ & _ & _ & Hwg).
      rewrite (step_main s gs (sync (wg_Add wg (Z.of_nat (length next))))
                 (λ _, main_prog g cl (PDisp wg (length info) next rest)) Hth)
        in Hmain.
      simpl in Hmain. unfold wg_shift in Hmain. rewrite Hwg in Hmain.
      simpl in Hmain.
      destruct (0 + Z.of_nat (length next) <? 0) eqn:Hneg;
        [apply Z.ltb_lt in Hneg; lia|discriminate].
    - destruct Hph as (_ & _ & _ & _ & _ & Hcur & Hwg).
      destruct todo as [|c todo]; cbn [dispatch foldr length] in *.
      + rewrite (step_main s gs (sync (wg_Wait wg)) (λ _, playLoop rest) Hth) in Hmain.
        simpl in Hmain. rewrite Hwg in Hmain. simpl in Hmain.
        destruct (Z.of_nat (unsignalled info) =? 0) eqn:Hzero; [discriminate|].
        apply Z.eqb_neq in Hzero.
        destruct (unsignalled_exists info ltac:(lia)) as (i & x & Hx & Hflag).
        destruct (Forall2_lookup_r _ _ _ _ _ Hgs Hx) as (p & Hp & Hg).
        rewrite Forall_lookup in Hcur. specialize (Hcur i x Hx Hflag).
        destruct Hg as [wg' p k Hw|wg' r|wg' r]; try discriminate.
        simpl in Hcur. subst wg'.
        destruct (running_can_step s _ gs i wg p k _ Hth Hp Hw Hwg ltac:(lia))
          as [s' Hs'].
        rewrite (Hq (S i)) in Hs'. discriminate.
      + rewrite (step_main s gs (sync (go_handler (Op c) wg c))
                   (λ _, main_prog g cl (PDisp wg base todo rest)) Hth) in Hmain.
        discriminate. }
  cbn [main_prog pending phase_ok] in *.
  assert (length gs = length cl) as Hall.
  { apply drop_nil_inv in Hpend. lia. }
  rewrite Hth. split; [reflexivity|]. split; [simpl; lia|].
  intros i Hi. simpl.
  destruct (lookup_lt_is_Some_2 gs i ltac:(lia)) as [p Hp].
  destruct (Forall2_lookup_l _ _ _ _ _ Hgs Hp) as (x & Hx & Hg).
  unfold all_signalled in Hph. rewrite Forall_lookup in Hph.
  specialize (Hph i x Hx).
  destruct Hg as [wg' p k Hw|wg' r|wg' r]; try discriminate.
  - pose proof (Hq (S i)) as Hstuck.
    rewrite (step_goroutine s _ gs i (sys taskDone) (λ _, Ret r) Hth Hp) in Hstuck.
    rewrite perform_sys in Hstuck. discriminate.
  - exists r. exact Hp.
Qed.

(** When nothing can move, the [go] statements of the log are those of
    the whole list. *)
Lemma Inv_quiescent_dispatched (s : State W) (n : nat) :
  Inv g cl s n →
  quiescent g s →
  go_changes (log (mach s)) = (λ c, (Op c, c)) <$> cl.
Proof.
  intros Hinv Hq.
  destruct (Inv_quiescent s n Hinv Hq) as (_ & Hall & _).
  destruct Hinv as [ph gs info Hth Hgs Hpend Hlen Hph Hcost (Hd & Hc & _ & _)].
  pose proof (Forall2_length _ _ _ Hgs) as Hlgs.
  rewrite Hth in Hall. simpl in Hall.
  rewrite Hc, take_ge by lia. reflexivity.
Qed.

(** Some thread can move, or none can. *)
Lemma can_move_dec (s : State W) :
  quiescent g s ∨ ∃ tid s', step g tid s = Some s'.
Proof.
  assert (∀ k, (∀ tid, (tid < k)%nat → step g tid s = None) ∨
               ∃ tid s', step g tid s = Some s') as Hsearch.
  { induction k as [|k [IH|IH]].
    - left. intros tid Htid. lia.
    - destruct (step g k s) as [s'|] eqn:Hk.
      + right. exists k, s'. exact Hk.
      + left. intros tid Htid.
        destruct (decide (tid = k)) as [->|Hne]; [exact Hk|]. apply IH. lia.
    - right. exact IH. }
  destruct (Hsearch (length (threads s))) as [Hnone|Hsome]; [|right; exact Hsome].
  left. intros tid.
  destruct (Nat.lt_ge_cases tid (length (threads s))) as [Hlt|Hge].
  - apply Hnone, Hlt.
  - unfold step. rewrite lookup_ge_None_2 by lia. reflexivity.
Qed.

(** Every pull can be run to its end: some schedule leads to a state
    where nothing is left to do. *)
Lemma Inv_completes (n : nat) (s : State W) :
  Inv g cl s n → ∃ sched, quiescent g (exec g sched s).
Proof.
  revert s. induction n as [n IH] using lt_wf_ind. intros s Hinv.
  destruct (can_move_dec s) as [Hq|(tid & s' & Hstep)].
  - exists []. exact Hq.
  - destruct (Inv_step s s' n tid Hinv Hstep) as (n' & Hlt & Hinv').
    destruct (IH n' Hlt s' Hinv') as (sched & Hq).
    exists (tid :: sched). rewrite exec_cons, Hstep. exact Hq.
Qed.
End Pull.

(** The change of index [j] is in batch [j / 4], at place [j mod 4]. *)
Lemma batches_lookup (cl : list Change) (j : nat) (c : Change) :
  cl !! j = Some c →
  ∃ b, batches cl !! (j / 4)%nat = Some b ∧ b !! (j mod 4)%nat = Some c.
Proof.
  remember (length cl) as n eqn:Hn. revert cl Hn j.
  induction n as [n IH] using lt_wf_ind. intros cl -> j Hj.
  rewrite batches_step.
  destruct (length (splitNext cl).1 =? 0)%nat eqn:Hz.
  { apply splitNext_empty in Hz. subst cl. discriminate. }
  pose proof (splitNext_shorter cl Hz) as Hshort.
  pose proof (lookup_lt_Some _ _ _ Hj) as Hlt.
  revert Hshort IH. unfold splitNext, maxNumOfConcPullTasks.
  destruct (Nat.ltb_spec 4 (length cl)) as [Hlong|Hsmall]; cbn [fst snd];
    intros Hshort IH.
  - destruct (Nat.lt_ge_cases j 4) as [Hj4|Hj4].
    + rewrite (Nat.div_small j 4), (Nat.mod_small j 4) by lia.
      exists (take 4 cl). split; [reflexivity|].
      rewrite lookup_take_lt by lia. exact Hj.
    + assert (drop 4 cl !! (j - 4)%nat = Some c) as Hd.
      { rewrite lookup_drop. replace (4 + (j - 4))%nat with j by lia. exact Hj. }
      destruct (IH _ Hshort (drop 4 cl) eq_refl (j - 4)%nat Hd) as (b & Hb & Hc).
      exists b.
      replace j with ((j - 4) + 1 * 4)%nat at 1 2 by lia.
      rewrite Nat.div_add, Nat.Div0.mod_add by lia.
      rewrite Nat.add_1_r. split; [exact Hb|exact Hc].
  - rewrite (Nat.div_small j 4), (Nat.mod_small j 4) by lia.
    exists cl. split; [reflexivity|exact Hj].
Qed.

(** C1, as amended (batches and the barrier).  The loop of
    [playPullChangeList] plays the batches of the change list one after
    the other; the batches are consecutive slices of one to four changes
    that put together give the list back, the change of index [j] being
    in batch [j / 4].  In the log of any schedule in any world, the [go]
    statements dispatch the changes in list order, each with the handler
    of its operation, the [j]-th one starting thread [j + 1]; and when a
    [go] statement is made, every task of an earlier batch has called
    [wg.Done] (its handler has returned, with an error or not) and makes
    no further call but its deferred [taskDone].  The changes are really
    dispatched: a schedule makes a bounded number of moves, can always be
    continued up to a state where nothing can move, and in such a state
    every change of the list has had its [go] statement. *)
Theorem batch_barrier {W : Type} `{World W} (g : Commands) (cl : list Change)
    (w : W) (sched : list nat) :
  concat (batches cl) = cl ∧
  Forall (λ b, (0 < length b ≤ maxNumOfConcPullTasks)%nat) (batches cl) ∧
  (∀ j c, cl !! j = Some c →
          ∃ b, batches cl !! (j / 4)%nat = Some b ∧ b !! (j mod 4)%nat = Some c) ∧
  playPullChangeList g cl =
    (_ ← call (taskStart (length cl)); foldr playBatch playEnd (batches cl)) ∧
  let s := exec g sched (init g cl w) in
  let evs := log (mach s) in
  length (threads s) = S (dispatched evs) ∧
  go_changes evs = (λ c, (Op c, c)) <$> take (dispatched evs) cl ∧
  (∀ t1 ev t2 i,
     evs = (t1 ++ ev :: t2)%list →
     is_go ev = true →
     (i / 4 < dispatched t1 / 4)%nat →
     signalled (S i) t1 = true ∧
     Forall (λ ev', tid_of ev' = S i → is_taskDone ev' = true) (ev :: t2)) ∧
  (moves g sched (init g cl w) ≤ 15 * length cl + 2)%nat ∧
  (∃ more, quiescent g (exec g (sched ++ more) (init g cl w))) ∧
  (quiescent g s → go_changes evs = (λ c, (Op c, c)) <$> cl).
Proof.
  split; [apply batches_concat|]. split; [apply batches_sizes|].
  split; [apply batches_lookup|].
  split; [unfold playPullChangeList; rewrite playLoop_batches; reflexivity|].
  destruct (Inv_exec g cl sched _ _ (Inv_init g cl w)) as (n & Hinv & Hmoves).
  cbv zeta.
  assert (∃ more, quiescent g (exec g (sched ++ more) (init g cl w))) as Hend.
  { destruct (Inv_completes g cl n _ Hinv) as (more & Hq).
    exists more. unfold exec in *. rewrite foldl_app. exact Hq. }
  pose proof (Inv_quiescent_dispatched g cl _ n Hinv) as Hall.
  destruct Hinv as [ph gs info Hth Hgs Hpend Hlen Hph Hcost (Hd & Hc & Hb & Hs)].
  pose proof (Forall2_length _ _ _ Hgs) as Hlgs.
  split; [rewrite Hth, Hd; simpl; lia|].
  split; [rewrite Hd; exact Hc|]. split; [exact Hb|].
  split; [lia|]. split; [exact Hend|exact Hall].
Qed.

(** C3 (errors do not halt the pull).  In any world, whatever the
    handlers return: a schedule makes at most [15 * length cl + 2] moves;
    when [playPullChangeList] has returned, it returned [nil], every change
    was dispatched and every task has run to the end of its handler; and
    as long as something is left to do some thread can move: a state
    where none can is one where [playPullChangeList] has returned [nil] and
    the goroutine of every change has returned. *)
Theorem errors_do_not_halt {W : Type} `{World W} (g : Commands) (cl : list Change)
    (w : W) (sched : list nat) :
  let s := exec g sched (init g cl w) in
  (moves g sched (init g cl w) ≤ 15 * length cl + 2)%nat ∧
  (∀ r, threads s !! 0%nat = Some (Ret r) →
        r = None ∧
        dispatched (log (mach s)) = length cl ∧
        ∀ i, (i < length cl)%nat → signalled (S i) (log (mach s)) = true) ∧
  (quiescent g s →
   threads s !! 0%nat = Some (Ret None) ∧
   length (threads s) = S (length cl) ∧
   ∀ i, (i < length cl)%nat → ∃ r, threads s !! S i = Some (Ret r)).
Proof.
  destruct (Inv_exec g cl sched _ _ (Inv_init g cl w)) as (n & Hinv & Hmoves).
  cbv zeta. split; [lia|]. split.
  - intros r. apply (Inv_returned g cl _ n r Hinv).
  - apply (Inv_quiescent g cl _ n Hinv).
Qed.

(** A pull of three changes in the sample world, the goroutines taking
    turns: the export of the document fails at its time stamp, the two
    other tasks and the pull itself return [nil]. *)
Example pull_with_a_failing_task :
  let s := exec Sample.g (concat (repeat [0; 1; 2; 3]%nat 20))
             (init Sample.g [Sample.add_blob; Sample.add_doc; Sample.mod_bare]
                Sample.disk) in
  threads s =
    [Ret None; Ret None;
     Ret (Some (PathError "chtimes" "/home/u/a/report" ENOENT)); Ret None] ∧
  quiescent Sample.g s.
Proof.
  split; [vm_compute; reflexivity|].
  intros [|[|[|[|tid]]]]; vm_compute; reflexivity.
Qed.

(** * Further properties of the code *)

(** ** More on the content materializer *)

Lemma append_suffix_neq (s ext : string) : s ++ "." ++ ext ≠ s.
Proof.
  induction s as [|a s IH]; simpl; [discriminate|].
  intros Heq. injection Heq as Heq. exact (IH Heq).
Qed.

Lemma docExportsMap_values (mime : string) (l : list string) :
  docExportsMap !! mime = Some l →
  ∃ key ext, l = [key; ext] ∧ ext ∈ exportExtensions.
Proof.
  intros Hl. apply elem_of_list_to_map_2 in Hl.
  unfold exportExtensions.
  repeat (apply elem_of_cons in Hl as [Hl|Hl];
          [injection Hl as _ ->; eexists _, _; split; [reflexivity|set_solver]|]).
  apply elem_of_nil in Hl. contradiction.
Qed.

(** X1.  For a change with an empty [BlobAt], whatever its MIME type,
    the list taken from the export table or from the fallback has its two
    elements, and the file [download] creates is named [Path + "." + ext]
    with [ext] one of txt, svg+xml, xlsx, docx, pptx: never the logical
    path itself. *)
Theorem export_never_takes_the_logical_path {W : Type} `{World W} (tid : nat)
    (g : Commands) (c : Change) (m : Machine W) :
  BlobAt (Src c) = "" →
  ∃ ext url r m' evs,
    ext ∈ exportExtensions ∧
    Path c ++ "." ++ ext ≠ Path c ∧
    run tid (download g c) m = Some (r, m') ∧
    log m' =
      (log m ++
       printed tid [("Exported " ++ Path c)%string;
                    (" to:  " ++ (Path c ++ "." ++ ext) ++ newline)%string] ++
       evs)%list ∧
    materialized tid (AbsPathOf g (Path c ++ "." ++ ext)) (Id (Src c)) url evs r.
Proof.
  intros Hblob.
  destruct (download_run tid g c m) as (r & m' & evs & Hrun & Hlog & _ & Hmat).
  revert Hlog Hmat. unfold exportChoice. rewrite Hblob. cbn [String.length Nat.ltb Nat.leb].
  destruct (docExportsMap !! MimeType (Src c)) as [l|] eqn:Hl; cbn [default].
  - destruct (docExportsMap_values _ _ Hl) as (key & ext & -> & Hext).
    intros Hlog Hmat. exists ext, (go_index (ExportLinks (Src c)) key), r, m', evs.
    split; [exact Hext|]. split; [apply append_suffix_neq|].
    split; [exact Hrun|]. split; [exact Hlog|exact Hmat].
  - intros Hlog Hmat.
    exists "txt", (go_index (ExportLinks (Src c)) "text/plain"), r, m', evs.
    split; [unfold exportExtensions; set_solver|]. split; [apply append_suffix_neq|].
    split; [exact Hrun|]. split; [exact Hlog|exact Hmat].
Qed.

Lemma export_never_takes_the_logical_path_witness :
  BlobAt (Src Sample.add_odd) = "" ∧
  ∃ ext url r m' evs,
    ext ∈ exportExtensions ∧
    Path Sample.add_odd ++ "." ++ ext ≠ Path Sample.add_odd ∧
    run 1 (download Sample.g Sample.add_odd) Sample.mach = Some (r, m') ∧
    log m' =
      (log Sample.mach ++
       printed 1 [("Exported " ++ Path Sample.add_odd)%string;
                  (" to:  " ++ (Path Sample.add_odd ++ "." ++ ext) ++ newline)%string] ++
       evs)%list ∧
    materialized 1 (AbsPathOf Sample.g (Path Sample.add_odd ++ "." ++ ext))
      (Id (Src Sample.add_odd)) url evs r.
Proof.
  split; [reflexivity|].
  exact (export_never_takes_the_logical_path 1 Sample.g Sample.add_odd Sample.mach eq_refl).
Defined.

(** X2.  [download] stops at the first failure: when [os.Create] fails
    its error is the result and nothing else is called; when the transport
    fails its error is the result and [io.Copy] is never called. *)
Theorem download_stops_at_first_failure {W : Type} `{World W} (tid : nat)
    (g : Commands) (c : Change) (m : Machine W) :
  ∃ r m' evs,
    run tid (download g c) m = Some (r, m') ∧
    log m' = (log m ++ printed tid (exportChoice c).2 ++ evs)%list ∧
    (∀ e, e ∈ omap create_error evs → r = Some e ∧ length evs = 1%nat) ∧
    (∀ e, e ∈ omap fetch_error evs → r = Some e ∧ existsb is_copy evs = false).
Proof.
  destruct (download_run tid g c m) as (r & m' & evs & Hrun & Hlog & _ & Hmat).
  exists r, m', evs. split; [exact Hrun|]. split; [exact Hlog|].
  destruct Hmat; simpl; split; intros e0 He0;
    repeat (apply elem_of_cons in He0 as [->|He0]);
    try (apply elem_of_nil in He0; contradiction); split; reflexivity.
Qed.

(** X3.  [download] returns [nil] exactly when [io.Copy] ran and reported
    no error: after a fetch that succeeded the result is the error of
    [io.Copy], and what the two [Close] calls answer plays no part. *)
Theorem download_result_after_copy {W : Type} `{World W} (tid : nat)
    (g : Commands) (c : Change) (m : Machine W) :
  ∃ r m' evs,
    run tid (download g c) m = Some (r, m') ∧
    log m' = (log m ++ printed tid (exportChoice c).2 ++ evs)%list ∧
    (∀ err, err ∈ omap copy_error evs → r = err) ∧
    (r = None ↔ omap copy_error evs = [None]).
Proof.
  destruct (download_run tid g c m) as (r & m' & evs & Hrun & Hlog & _ & Hmat).
  exists r, m', evs. split; [exact Hrun|]. split; [exact Hlog|].
  destruct Hmat; simpl; split;
    try (intros e0 He0; repeat (apply elem_of_cons in He0 as [->|He0]);
         try (apply elem_of_nil in He0; contradiction); reflexivity);
    split; intros Heq; try discriminate; congruence.
Qed.

(** ** More on the handlers *)

Lemma work_run {W : Type} `{World W} (tid : nat) (p : Prog error) (n : nat)
    (m : Machine W) :
  work p n →
  ∃ r m' evs,
    run tid p m = Some (r, m') ∧
    log m' = (log m ++ evs)%list ∧
    wgs m' = wgs m ∧
    (length evs ≤ n)%nat ∧
    Forall (λ ev, is_sync ev = false ∧ tid_of ev = tid) evs.
Proof.
  intros Hw. revert m. induction Hw as [r n|X c k n _ IH]; intros m.
  - exists r, m, []. split; [reflexivity|]. rewrite app_nil_r.
    split; [reflexivity|]. split; [reflexivity|]. split; [simpl; lia|constructor].
  - cbn [run]. rewrite perform_sys.
    destruct (IH (sys_call c (world m)).1
                {| wgs := wgs m; world := (sys_call c (world m)).2;
                   log := (log m ++ [Ev tid (sys c) (sys_call c (world m)).1])%list |})
      as (r & m' & evs & Hrun & Hlog & Hwgs & Hlen & Hall).
    exists r, m', (Ev tid (sys c) (sys_call c (world m)).1 :: evs).
    split; [exact Hrun|]. simpl in Hlog, Hwgs.
    split; [rewrite Hlog, <- app_assoc; reflexivity|].
    split; [exact Hwgs|]. split; [simpl; lia|].
    constructor; [split; reflexivity|exact Hall].
Qed.

Lemma handler_body (g : Commands) (op : OpKind) (wg : WgRef) (c : Change) :
  ∃ p, handler g op wg c = defer (call taskDone) (defer (rt (wg_Done wg)) p) ∧
       work p 9.
Proof.
  destruct op; simpl; unfold localAdd, localMod, localDelete;
    eexists; (split; [reflexivity|]).
  - open_prog. repeat work_step.
  - apply work_localMod_body.
  - open_prog. repeat work_step.
Qed.

(** X4.  Every handler, on every exit path and whatever the world
    answers, makes at most nine calls to the system and none to the
    runtime, then calls [wg.Done] once and [taskDone] once, in that order:
    the counter of its wait group goes down by exactly one. *)
Theorem handler_signals_once {W : Type} `{World W} (tid : nat) (g : Commands)
    (op : OpKind) (wg : WgRef) (c : Change) (m : Machine W) (n : Z) :
  wgs m !! wg = Some n →
  0 < n →
  ∃ r m' evs,
    run tid (handler g op wg c) m = Some (r, m') ∧
    log m' = (log m ++ evs ++ epilogue tid wg)%list ∧
    (length evs ≤ 9)%nat ∧
    Forall (λ ev, is_sync ev = false ∧ tid_of ev = tid) evs ∧
    wgs m' = <[wg := n - 1]> (wgs m).
Proof.
  intros Hwg Hn.
  destruct (handler_body g op wg c) as (p & -> & Hw).
  destruct (work_run tid p 9 m Hw) as (r & m1 & evs & Hrun & Hlog & Hwgs & Hlen & Hall).
  rewrite <- Hwgs in Hwg.
  destruct (run_handler_frame tid wg p m m1 r n Hrun Hwg Hn)
    as (m' & Hrun' & Hlog' & Hwgs' & _).
  exists r, m', evs. split; [exact Hrun'|].
  split; [rewrite Hlog', Hlog, <- app_assoc; reflexivity|].
  split; [exact Hlen|]. split; [exact Hall|]. rewrite Hwgs', Hwgs. reflexivity.
Qed.

Lemma handler_signals_once_witness :
  (wgs Sample.mach !! 0%nat = Some 1 ∧ 0 < 1) ∧
  ∃ r m' evs,
    run 1 (handler Sample.g OpAdd 0%nat Sample.add_doc) Sample.mach = Some (r, m') ∧
    log m' = (log Sample.mach ++ evs ++ epilogue 1 0%nat)%list ∧
    (length evs ≤ 9)%nat ∧
    Forall (λ ev, is_sync ev = false ∧ tid_of ev = 1%nat) evs ∧
    wgs m' = <[0%nat := 1 - 1]> (wgs Sample.mach).
Proof.
  split; [split; [reflexivity|lia]|].
  exact (handler_signals_once 1 Sample.g OpAdd 0%nat Sample.add_doc Sample.mach 1
           eq_refl ltac:(lia)).
Defined.

(** ** More on the applier *)

Lemma batches_count_full (cl : list Change) :
  length (batches cl) = ((length cl + 3) / 4)%nat ∧
  ∀ k b, (S k < length (batches cl))%nat → batches cl !! k = Some b →
         length b = 4%nat.
Proof.
  remember (length cl) as n eqn:Hn. revert cl Hn.
  induction n as [n IH] using lt_wf_ind. intros cl ->.
  rewrite batches_step.
  destruct (length (splitNext cl).1 =? 0)%nat eqn:Hz.
  { apply splitNext_empty in Hz. subst cl. split; [reflexivity|].
    intros k b Hk. cbn [length] in Hk. lia. }
  pose proof (splitNext_shorter cl Hz) as Hshort.
  destruct (IH _ Hshort _ eq_refl) as [Hcount Hfull].
  pose proof (splitNext_full cl) as Hfour.
  pose proof (splitNext_app cl) as Happ.
  assert (length cl = length (splitNext cl).1 + length (splitNext cl).2)%nat as Hl
    by (rewrite <- Happ at 1; apply length_app).
  apply Nat.eqb_neq in Hz. pose proof (splitNext_length cl) as Hle.
  split.
  - cbn [length]. rewrite Hcount.
    destruct ((splitNext cl).2) as [|c2 rest2] eqn:Hrest.
    + cbn [length] in *. rewrite Nat.add_0_r in Hl. rewrite Hl.
      change ((0 + 3) / 4)%nat with 0%nat.
      apply Nat.div_unique with (r := (length (splitNext cl).1 - 1)%nat); lia.
    + rewrite Hl, Hfour by discriminate.
      replace (4 + length (c2 :: rest2) + 3)%nat
        with (length (c2 :: rest2) + 3 + 1 * 4)%nat by lia.
      rewrite Nat.div_add by lia. lia.
  - intros [|k] b Hk Hb; cbn [length lookup list_lookup] in Hk, Hb.
    + injection Hb as <-. apply Hfour. intros Hnil. rewrite Hnil in Hk.
      rewrite batches_step in Hk. cbn in Hk. lia.
    + eapply Hfull; [|exact Hb]. lia.
Qed.

(** X5.  A list of [n] changes is played in [(n + 3) / 4] batches, each
    with its own wait group, and every batch but the last has exactly four
    changes. *)
Theorem batches_are_full_but_the_last (g : Commands) (cl : list Change) :
  playPullChangeList g cl =
    (_ ← call (taskStart (length cl)); foldr playBatch playEnd (batches cl)) ∧
  length (batches cl) = ((length cl + 3) / 4)%nat ∧
  ∀ k b, (S k < length (batches cl))%nat → batches cl !! k = Some b →
         length b = 4%nat.
Proof.
  split; [unfold playPullChangeList; rewrite playLoop_batches; reflexivity|].
  apply batches_count_full.
Qed.

Lemma working_bound (gs : list (Prog error)) (info : list Ghost) :
  Forall2 gstate gs info →
  (length (filter (λ p, working p = true) gs) ≤ unsignalled info)%nat.
Proof.
  induction 1 as [|p x gs info Hg _ IH]; [simpl; lia|].
  rewrite filter_cons. destruct Hg as [wg p k Hw|wg r|wg r]; simpl;
    try case_decide; simpl; try discriminate; lia.
Qed.

Lemma unsignalled_le_length (info : list Ghost) :
  (unsignalled info ≤ length info)%nat.
Proof.
  induction info as [|x info IH]; simpl; [lia|]. destruct (gh_signalled x); lia.
Qed.

Lemma unsignalled_bound (ph : Phase) (ws : list Z) (info : list Ghost) :
  phase_ok ph ws info → (unsignalled info ≤ 4)%nat.
Proof.
  assert (all_signalled info → unsignalled info ≤ 4)%nat as Hall.
  { intros Ha. apply unsignalled_zero in Ha. lia. }
  destruct ph as [|rest|wg next rest|wg base todo rest|]; simpl.
  - intros [-> _]. simpl. lia.
  - intros [Ha _]. auto.
  - intros [Ha _]. auto.
  - intros (_ & Hbase & Hsz & _ & Hold & _).
    rewrite <- (take_drop base info), unsignalled_app.
    apply unsignalled_zero in Hold. rewrite Hold.
    pose proof (unsignalled_le_length (drop base info)) as Hle.
    rewrite length_drop in Hle. lia.
  - auto.
Qed.

(** X6.  Bounded concurrency: in any world and under any schedule, at
    most [maxNumOfConcPullTasks] goroutines are inside their handler at
    the same time. *)
Theorem at_most_four_in_flight {W : Type} `{World W} (g : Commands)
    (cl : list Change) (w : W) (sched : list nat) :
  (in_flight (exec g sched (init g cl w)) ≤ maxNumOfConcPullTasks)%nat.
Proof.
  destruct (Inv_exec g cl sched _ _ (Inv_init g cl w)) as (n & Hinv & _).
  destruct Hinv as [ph gs info Hth Hgs Hpend Hlen Hph Hcost Hlog].
  unfold in_flight, maxNumOfConcPullTasks. rewrite Hth. simpl tail.
  pose proof (working_bound gs info Hgs). pose proof (unsignalled_bound ph _ info Hph).
  lia.
Qed.

(** X7.  Each change is handled exactly once: when [playPullChangeList]
    has returned, the [go] statements of the log are the changes of the
    list, one each, in the order of the list and each with the handler of
    its [Op()], and there is one goroutine per change. *)
Theorem every_change_dispatched_once {W : Type} `{World W} (g : Commands)
    (cl : list Change) (w : W) (sched : list nat) (r : error) :
  let s := exec g sched (init g cl w) in
  threads s !! 0%nat = Some (Ret r) →
  go_changes (log (mach s)) = (λ c, (Op c, c)) <$> cl ∧
  length (tail (threads s)) = length cl.
Proof.
  cbv zeta.
  destruct (Inv_exec g cl sched _ _ (Inv_init g cl w)) as (n & Hinv & _).
  destruct Hinv as [ph gs info Hth Hgs Hpend Hlen Hph Hcost (Hd & Hc & _)].
  pose proof (Forall2_length _ _ _ Hgs) as Hlgs.
  rewrite Hth. simpl. intros [= Hmain].
  apply main_prog_ret in Hmain as [-> _]. simpl in Hpend.
  apply drop_nil_inv in Hpend.
  split; [|lia]. rewrite Hc, take_ge by lia. reflexivity.
Qed.

Lemma every_change_dispatched_once_witness :
  let sched := concat (repeat [0; 1; 2; 3]%nat 20) in
  let cl := [Sample.add_blob; Sample.add_doc; Sample.mod_bare] in
  let s := exec Sample.g sched (init Sample.g cl Sample.disk) in
  threads s !! 0%nat = Some (Ret None) ∧
  go_changes (log (mach s)) = (λ c, (Op c, c)) <$> cl ∧
  length (tail (threads s)) = length cl.
Proof.
  cbv zeta.
  assert (threads (exec Sample.g (concat (repeat [0; 1; 2; 3]%nat 20))
                     (init Sample.g [Sample.add_blob; Sample.add_doc; Sample.mod_bare]
                        Sample.disk)) !! 0%nat = Some (Ret None)) as Hret
    by (vm_compute; reflexivity).
  split; [exact Hret|].
  exact (every_change_dispatched_once Sample.g
           [Sample.add_blob; Sample.add_doc; Sample.mod_bare] Sample.disk
           (concat (repeat [0; 1; 2; 3]%nat 20)) None Hret).
Defined.

(** A move adds one entry to the log. *)
Lemma step_log {W : Type} `{World W} (g : Commands) (tid : nat) (s s' : State W) :
  step g tid s = Some s' → ∃ ev, log (mach s') = (log (mach s) ++ [ev])%list.
Proof.
  unfold step. destruct (threads s !! tid) as [[r|X e k]|]; try discriminate.
  destruct e as [c|c].
  - rewrite perform_sys. intros [= <-]. eexists. reflexivity.
  - simpl. destruct (sync_call c (wgs (mach s))) as [[x ws]|]; simpl; [|discriminate].
    intros [= <-]. eexists. reflexivity.
Qed.

(** Schedules from a state where only thread 0 can move, and from one
    where nothing can. *)
Lemma exec_single {W : Type} `{World W} (g : Commands) (s0 s1 : State W)
    (sched : list nat) :
  (∀ i, step g (S i) s0 = None) →
  step g 0 s0 = Some s1 →
  exec g sched s0 = s0 ∨ ∃ sched', exec g sched s0 = exec g sched' s1.
Proof.
  intros Hothers Hmain. induction sched as [|tid sched IH]; [left; reflexivity|].
  rewrite exec_cons. destruct tid as [|i].
  - rewrite Hmain. right. exists sched. reflexivity.
  - rewrite Hothers. exact IH.
Qed.

Lemma exec_stuck {W : Type} `{World W} (g : Commands) (s : State W) (sched : list nat) :
  quiescent g s → exec g sched s = s.
Proof.
  intros Hq. induction sched as [|tid sched IH]; [reflexivity|].
  rewrite exec_cons, Hq. exact IH.
Qed.

Lemma exec_log_head {W : Type} `{World W} (g : Commands) (ev : Event) (s : State W)
    (sched : list nat) :
  (∃ rest, log (mach s) = ev :: rest) →
  ∃ rest, log (mach (exec g sched s)) = ev :: rest.
Proof.
  revert s. induction sched as [|tid sched IH]; intros s Hs; [exact Hs|].
  rewrite exec_cons. apply IH.
  destruct (step g tid s) as [s1|] eqn:Hstep; simpl; [|exact Hs].
  destruct (step_log g tid s s1 Hstep) as [ev' Hev]. destruct Hs as [rest Hs].
  exists (rest ++ [ev'])%list. rewrite Hev, Hs. reflexivity.
Qed.

(** X8.  The progress counters are announced first: in any world and
    under any schedule, the log of a pull is empty or starts with the call
    [taskStart(len(cl))] made by [playPullChangeList]. *)
Theorem taskStart_comes_first {W : Type} `{World W} (g : Commands)
    (cl : list Change) (w : W) (sched : list nat) :
  let evs := log (mach (exec g sched (init g cl w))) in
  evs = [] ∨ ∃ rest, evs = Ev 0 (sys (taskStart (length cl))) tt :: rest.
Proof.
  cbv zeta.
  pose proof (step_main g (init g cl w) [] (sys (taskStart (length cl)))
                (λ _, playLoop cl) eq_refl) as Hmain.
  rewrite perform_sys in Hmain.
  destruct (exec_single g (init g cl w) _ sched (λ i, eq_refl) Hmain)
    as [->|[sched' ->]]; [left; reflexivity|right].
  apply exec_log_head. simpl.
  destruct (sys_call (taskStart (length cl)) w).1. eexists. reflexivity.
Qed.

(** ** The orchestrator *)

Section Orchestrator.
Context {FileInfo W : Type} `{World W} (p : Puller FileInfo).

Lemma done_is_quiescent (s : State W) (r : error) :
  threads s = [Ret r] → quiescent (cmds p) s.
Proof.
  intros Hth tid. unfold step. rewrite Hth. destruct tid as [|[|tid]]; reflexivity.
Qed.

(** X9.  What [Pull] returns, in any world and under any schedule: the
    error of the remote lookup, with nothing printed or done; else the
    error of the resolver, with no change dispatched; else [nil], with
    every resolved change dispatched when the confirmation was given and
    none when it was refused.  An error of a handler is never returned. *)
Theorem Pull_returns_no_handler_error (w : W) (sched : list nat) (r : error) :
  threads (exec (cmds p) sched (init_pull p w)) !! 0%nat = Some (Ret r) →
  let found := rem_FindByPath p (opts_Path p) in
  let res := resolveChangeListRecv p false (opts_Path p) found.1 (localOf p) in
  let evs := log (mach (exec (cmds p) sched (init_pull p w))) in
  match found.2 with
  | Some e => r = Some e ∧ evs = []
  | None =>
      match res.2 with
      | Some e => r = Some e ∧ dispatched evs = 0%nat
      | None =>
          r = None ∧
          dispatched evs =
            if printChangeList p res.1 (opts_IsNoPrompt p) then length res.1 else 0%nat
      end
  end.
Proof.
  cbv zeta. unfold init_pull, Pull.
  destruct (rem_FindByPath p (opts_Path p)) as [r0 [e|]]; cbn [fst snd].
  { rewrite exec_stuck by (eapply done_is_quiescent; reflexivity).
    simpl. intros [= <-]. split; reflexivity. }
  set (s0 := {| threads := _; mach := _ |}).
  destruct (resolveChangeListRecv p false (opts_Path p) r0 (localOf p)) as [cl err] eqn:Hres.
  cbn [fst snd].
  set (K := match err with
            | Some e => mret (Some e)
            | None => if printChangeList p cl (opts_IsNoPrompt p)
                      then playPullChangeList (cmds p) cl else mret err
            end : Prog error).
  pose proof (step_main (cmds p) s0 [] (sys (fmt_Write (fmt_Sprintln ["Resolving..."])))
                (λ _, K) eq_refl) as Hmain.
  rewrite perform_sys in Hmain.
  destruct (exec_single (cmds p) s0 _ sched (λ i, eq_refl) Hmain)
    as [->|[sched' ->]]; [discriminate|].
  clear Hmain. subst K. simpl app.
  set (w1 := (sys_call (fmt_Write (fmt_Sprintln ["Resolving..."])) w).2).
  set (x := (sys_call (fmt_Write (fmt_Sprintln ["Resolving..."])) w).1).
  destruct err as [e|].
  { rewrite exec_stuck by (eapply done_is_quiescent; reflexivity).
    simpl. intros [= <-]. split; reflexivity. }
  destruct (printChangeList p cl (opts_IsNoPrompt p)).
  - assert (Inv (cmds p) cl
              {| threads := [playPullChangeList (cmds p) cl];
                 mach := {| wgs := []; world := w1;
                            log := [Ev 0 (sys (fmt_Write (fmt_Sprintln ["Resolving..."]))) x]
                         |} |} (15 * length cl + 2)) as Hinv.
    { apply (Inv_intro (cmds p) cl _ _ PStart [] []); simpl.
      - reflexivity.
      - constructor.
      - reflexivity.
      - lia.
      - split; reflexivity.
      - unfold loop_cost. lia.
      - split; [reflexivity|]. split; [reflexivity|]. split.
        + intros t1 ev t2 i Hsplit Hgo.
          destruct t1 as [|ev1 t1]; [injection Hsplit as <- <-; discriminate|].
          injection Hsplit as _ Hsplit. destruct t1; discriminate.
        + intros i y Hi. discriminate. }
    destruct (Inv_exec (cmds p) cl sched' _ _ Hinv) as (n & Hinv' & _).
    intros Hret. destruct (Inv_returned (cmds p) cl _ n r Hinv' Hret) as (-> & Hd & _).
    split; [reflexivity|exact Hd].
  - rewrite exec_stuck by (eapply done_is_quiescent; reflexivity).
    simpl. intros [= <-]. split; reflexivity.
Qed.
End Orchestrator.

Lemma Pull_returns_no_handler_error_witness :
  let sched := concat (repeat [0; 1; 2; 3]%nat 20) in
  let s := exec Sample.g sched (init_pull sample_puller Sample.disk) in
  threads s !! 0%nat = Some (Ret None) ∧
  threads s !! 2%nat = Some (Ret (Some (PathError "chtimes" "/home/u/a/report" ENOENT))) ∧
  dispatched (log (mach s)) = 3%nat.
Proof.
  cbv zeta.
  assert (threads (exec Sample.g (concat (repeat [0; 1; 2; 3]%nat 20))
                     (init_pull sample_puller Sample.disk)) !! 0%nat = Some (Ret None))
    as Hret by (vm_compute; reflexivity).
  split; [exact Hret|]. split; [vm_compute; reflexivity|].
  exact (proj2 (Pull_returns_no_handler_error sample_puller Sample.disk
                  (concat (repeat [0; 1; 2; 3]%nat 20)) None Hret)).
Defined.

(** ** More on the reference world *)

Lemma disk_exportTarget (tid : nat) (c : Change) (m : Machine Disk) :
  ∃ m1, run tid (exportTarget c) m = Some ((exportChoice c).1, m1) ∧
        nodes (world m1) = nodes (world m) ∧
        fds (world m1) = fds (world m) ∧
        blobs (world m1) = blobs (world m) ∧
        next_handle (world m1) = next_handle (world m) ∧
        by_id (world m1) = by_id (world m) ∧
        by_url (world m1) = by_url (world m).
Proof.
  unfold exportTarget, exportChoice.
  destruct (String.length (BlobAt (Src c)) <? 1)%nat; simpl;
    eexists; (split; [reflexivity|]); simpl; repeat split; reflexivity.
Qed.

Lemma disk_download (tid : nat) (g : Commands) (c : Change)
    (m m' : Machine Disk) (r : error) :
  run tid (download g c) m = Some (r, m') →
  (∀ k, k ≠ AbsPathOf g (exportChoice c).1.2 →
        nodes (world m') !! k = nodes (world m) !! k ∨
        (k = filepath_Dir (AbsPathOf g (exportChoice c).1.2) ∧
         ∃ t t', nodes (world m) !! k = Some (NDir t) ∧
                 nodes (world m') !! k = Some (NDir t'))) ∧
  (r = None →
   ∃ data t,
     served (world m) (Id (Src c)) (exportChoice c).1.1 = Some data ∧
     nodes (world m') !! AbsPathOf g (exportChoice c).1.2 = Some (NFile data t)).
Proof.
  unfold download. unfold mbind at 1, Prog_bind at 1. rewrite run_bind.
  destruct (disk_exportTarget tid c m)
    as (m1 & -> & Hn & Hf & Hb & Hh & Hid & Hurl).
  destruct (exportChoice c) as [[url name] lines]. cbn [fst snd].
  unfold served. rewrite <- Hid, <- Hurl, <- Hn.
  generalize (AbsPathOf g name) as dest. intros dest.
  clear Hn Hf Hb Hh Hid Hurl. destruct m1 as [ws d L]. simpl.
  unfold sys_call, Disk_World; simpl. unfold create, touch_dir.
  destruct (nodes d !! dest) as [[old told|tdir]|] eqn:Hdest;
    destruct (nodes d !! filepath_Dir dest) as [[pdata pt|pt]|] eqn:Hpar;
    simpl;
    try (intros Hrun; injection Hrun as <- <-;
         (split; [intros k Hk; left; reflexivity|discriminate]));
    (unfold sys_call, Disk_World; simpl; unfold fetch; simpl;
     destruct (if (url =? "")%string then by_id d !! Id (Src c) else by_url d !! url)
       as [data|]; simpl;
     unfold sys_call, Disk_World; simpl; unfold copy; simpl;
     rewrite ?lookup_insert_eq; simpl;
     unfold sys_call, Disk_World; simpl; unfold close_blob; simpl;
     rewrite ?lookup_insert_eq; simpl;
     unfold sys_call, Disk_World; simpl; unfold close_file; simpl;
     rewrite ?lookup_insert_eq; simpl;
     intros Hrun; injection Hrun as <- <-; simpl;
     (split;
      [intros k Hk; repeat (rewrite (lookup_insert_ne _ dest k) by congruence);
       first
         [left; reflexivity
         |destruct (decide (k = filepath_Dir dest)) as [->|Hne];
          [right; split; [reflexivity|]; rewrite lookup_insert_eq, Hpar; eauto
          |left; rewrite lookup_insert_ne by congruence; reflexivity]]
      |intros Hr;
       first [discriminate
             |eexists _, _; (split; [reflexivity|]);
              rewrite lookup_insert_eq; reflexivity]])).
Qed.

(** X10.  On the reference world, when [download] returns [nil] the file
    at the name it chose (the logical path for a raw blob, the suffixed
    name for an export) holds exactly the bytes the remote serves for the
    id and export URL it asked for: what the file held before is gone. *)
Theorem download_writes_remote_bytes (tid : nat) (g : Commands) (c : Change)
    (m m' : Machine Disk) :
  run tid (download g c) m = Some (None, m') →
  ∃ data t,
    served (world m) (Id (Src c)) (exportChoice c).1.1 = Some data ∧
    nodes (world m') !! AbsPathOf g (exportChoice c).1.2 = Some (NFile data t).
Proof.
  intros Hrun. destruct (disk_download tid g c m m' None Hrun) as [_ Hcontent].
  apply Hcontent. reflexivity.
Qed.

Lemma download_writes_remote_bytes_witness :
  ∃ m',
    run 1 (download Sample.g mod_blob) Sample.mach = Some (None, m') ∧
    nodes (world Sample.mach) !! "/home/u/old.txt" = Some (NFile "old" 7) ∧
    ∃ data t,
      served (world Sample.mach) "id1" "" = Some data ∧
      nodes (world m') !! "/home/u/old.txt" = Some (NFile data t).
Proof.
  eexists. split; [vm_compute; reflexivity|]. split; [vm_compute; reflexivity|].
  refine (download_writes_remote_bytes 1 Sample.g mod_blob Sample.mach _ _).
  vm_compute. reflexivity.
Defined.

(** [filepath.Dir] gives ["."], the root or something shorter, and never
    the empty path. *)
Lemma length_list_ascii_of_string (s : string) :
  length (String.list_ascii_of_string s) = String.length s.
Proof. induction s as [|a s IH]; simpl; [reflexivity|rewrite IH; reflexivity]. Qed.

Lemma length_string_of_list_ascii (l : list Ascii.ascii) :
  String.length (String.string_of_list_ascii l) = length l.
Proof. induction l as [|a l IH]; simpl; [reflexivity|rewrite IH; reflexivity]. Qed.

Lemma drop_last_elem_length (l r : list Ascii.ascii) :
  drop_last_elem l = Some r → (length r < length l)%nat.
Proof.
  revert r. induction l as [|a l IH]; simpl; intros r; [discriminate|].
  destruct (Ascii.eqb a (Ascii.ascii_of_nat 47)).
  - intros [= <-]. lia.
  - intros Hr. specialize (IH r Hr). lia.
Qed.

Lemma filepath_Dir_cases (s : string) :
  filepath_Dir s = "." ∨ filepath_Dir s = "/" ∨
  (0 < String.length (filepath_Dir s) < String.length s)%nat.
Proof.
  unfold filepath_Dir.
  destruct (drop_last_elem (rev (String.list_ascii_of_string s))) as [[|a r]|] eqn:Hd;
    [right; left; reflexivity| |left; reflexivity].
  right. right. apply drop_last_elem_length in Hd.
  rewrite length_rev, length_list_ascii_of_string in Hd.
  rewrite length_string_of_list_ascii, length_rev. simpl in *. lia.
Qed.

Lemma filepath_Dir_iter (s : string) (j : nat) :
  let t := Nat.iter (S j) filepath_Dir s in
  t = "." ∨ t = "/" ∨ (0 < String.length t < String.length s)%nat.
Proof.
  induction j as [|j IH]; [apply filepath_Dir_cases|].
  cbv zeta in *. remember (Nat.iter (S j) filepath_Dir s) as t eqn:Ht.
  change (Nat.iter (S (S j)) filepath_Dir s) with (filepath_Dir (Nat.iter (S j) filepath_Dir s)).
  rewrite <- Ht.
  destruct IH as [->|[->|IH]]; [left; reflexivity|right; left; reflexivity|].
  destruct (filepath_Dir_cases t) as [Hc|[Hc|Hc]]; [left; exact Hc|right; left; exact Hc|].
  right. right. lia.
Qed.

(** A path is none of the directories above its parent, unless it is its
    own parent. *)
Lemma filepath_Dir_above (s : string) (j : nat) :
  s ≠ filepath_Dir s → s ≠ Nat.iter (S j) filepath_Dir (filepath_Dir s).
Proof.
  intros Hne Heq.
  pose proof (filepath_Dir_iter (filepath_Dir s) j) as Ht. cbv zeta in Ht.
  rewrite <- Heq in Ht.
  destruct Ht as [->|[->|Ht]]; [apply Hne; reflexivity..|].
  destruct (filepath_Dir_cases s) as [Hc|[Hc|Hc]];
    [rewrite Hc in Ht; simpl in Ht; lia..|lia].
Qed.

Lemma mkdir_keeps (path : string) (d : Disk) (k : string) (v : Node) :
  nodes d !! k = Some v →
  k ≠ filepath_Dir path →
  nodes (mkdir path d).2 !! k = Some v.
Proof.
  intros Hk Hne. unfold mkdir.
  destruct (nodes d !! path) as [x|] eqn:Hp; [exact Hk|].
  destruct (nodes d !! filepath_Dir path) as [[? ?|?]|]; simpl; try exact Hk.
  rewrite lookup_insert_ne by (intros ->; congruence).
  rewrite touch_dir_lookup_ne by exact Hne. exact Hk.
Qed.

(** [os.MkdirAll] leaves an entry as it is, unless it is a directory
    above the path. *)
Lemma mkdirAll_keeps (fuel : nat) (path : string) (d : Disk) (k : string) (v : Node) :
  nodes d !! k = Some v →
  (∀ j, k ≠ Nat.iter (S j) filepath_Dir path) →
  nodes (mkdirAll fuel path d).2 !! k = Some v.
Proof.
  revert path d. induction fuel as [|fuel IH]; intros path d Hk Habove; simpl.
  - destruct (nodes d !! path) as [[? ?|?]|]; simpl; try exact Hk.
    apply mkdir_keeps; [exact Hk|apply (Habove 0%nat)].
  - destruct (nodes d !! path) as [[? ?|?]|]; simpl; try exact Hk.
    destruct (String.length (filepath_Dir path) <? String.length path)%nat.
    + assert (∀ j, k ≠ Nat.iter (S j) filepath_Dir (filepath_Dir path)) as Habove'.
      { intros j. rewrite <- Nat.iter_succ_r. apply Habove. }
      specialize (IH (filepath_Dir path) d Hk Habove').
      destruct (mkdirAll fuel (filepath_Dir path) d) as [[e|] d1]; simpl in *;
        [exact IH|]. apply mkdir_keeps; [exact IH|apply (Habove 0%nat)].
    + apply mkdir_keeps; [exact Hk|apply (Habove 0%nat)].
Qed.

(** [os.MkdirAll] of a path that names an entry changes nothing. *)
Lemma mkdirAll_existing (fuel : nat) (path : string) (d : Disk) (v : Node) :
  nodes d !! path = Some v → (mkdirAll fuel path d).2 = d.
Proof.
  intros Hv. destruct fuel; simpl; rewrite Hv; destruct v; reflexivity.
Qed.

(** [os.MkdirAll] of its parent directory leaves an entry as it is. *)
Lemma mkdirAll_parent_keeps (fuel : nat) (path : string) (d : Disk) (v : Node) :
  nodes d !! path = Some v →
  nodes (mkdirAll fuel (filepath_Dir path) d).2 !! path = Some v.
Proof.
  intros Hv. destruct (decide (path = filepath_Dir path)) as [Heq|Hne].
  - rewrite <- Heq. rewrite (mkdirAll_existing fuel path d v Hv). exact Hv.
  - apply mkdirAll_keeps; [exact Hv|]. intros j. apply filepath_Dir_above, Hne.
Qed.

(** X11.  On the reference world, the Add of a directory whose local
    path is already taken is reported as a failure: [localAdd] returns the
    "exists" error of [os.Mkdir] and the entry that was there is left as it
    was. *)
Theorem localAdd_existing_directory (tid : nat) (g : Commands) (wg : WgRef)
    (c : Change) (m : Machine Disk) (n : Z) (node : Node) :
  IsDir (Src c) = true →
  nodes (world m) !! AbsPathOf g (Path c) = Some node →
  wgs m !! wg = Some n →
  0 < n →
  ∃ m',
    run tid (localAdd g wg c) m =
      Some (Some (PathError "mkdir" (AbsPathOf g (Path c)) EEXIST), m') ∧
    nodes (world m') !! AbsPathOf g (Path c) = Some node.
Proof.
  intros Hdir Hnode Hwg Hn.
  set (dest := AbsPathOf g (Path c)) in *.
  set (d1 := (mkdirAll (String.length (filepath_Dir dest)) (filepath_Dir dest)
                (world m)).2).
  assert (nodes d1 !! dest = Some node) as Hkept
    by (apply mkdirAll_parent_keeps, Hnode).
  assert (∃ m1,
    run tid
      (_ ← call (os_MkdirAll (filepath_Dir dest) dirPerm);
       if IsDir (Src c) then call (os_Mkdir dest dirPerm)
       else
         err ← (if hasContent (Src c) then download g c else mret None);
         match err with
         | Some e => mret (Some e)
         | None => call (os_Chtimes dest (ModTime (Src c)) (ModTime (Src c)))
         end) m = Some (Some (PathError "mkdir" dest EEXIST), m1) ∧
    wgs m1 = wgs m ∧ nodes (world m1) = nodes d1) as (m1 & Hbody & Hwgs & Hnodes).
  { unfold mbind at 1, Prog_bind at 1. rewrite run_bind, run_call, Hdir, run_call.
    unfold sys_call, Disk_World. cbn [disk_call].
    fold d1.
    destruct (mkdirAll (String.length (filepath_Dir dest)) (filepath_Dir dest) (world m))
      as [e0 d0] eqn:Hmk. subst d1. cbn [fst snd world] in *.
    unfold mkdir. cbn [tick nodes]. rewrite Hkept. cbn [fst snd].
    eexists. split; [reflexivity|]. split; reflexivity. }
  rewrite <- Hwgs in Hwg.
  destruct (run_handler_frame tid wg _ m m1 _ n Hbody Hwg Hn)
    as (m' & Hrun & _ & _ & Hworld).
  exists m'. split; [exact Hrun|]. rewrite Hworld. simpl. rewrite Hnodes. exact Hkept.
Qed.

Lemma localAdd_existing_directory_witness :
  (IsDir (Src add_home) = true ∧
   nodes (world Sample.mach) !! AbsPathOf g_root (Path add_home) = Some (NDir 0) ∧
   wgs Sample.mach !! 0%nat = Some 1 ∧ 0 < 1) ∧
  ∃ m',
    run 1 (localAdd g_root 0%nat add_home) Sample.mach =
      Some (Some (PathError "mkdir" "/home/u" EEXIST), m') ∧
    nodes (world m') !! "/home/u" = Some (NDir 0).
Proof.
  split; [repeat split; try reflexivity; lia|].
  exact (localAdd_existing_directory 1 g_root 0%nat add_home Sample.mach 1 (NDir 0)
           eq_refl eq_refl eq_refl ltac:(lia)).
Defined.

(** X12.  On the reference world, [localDelete] of an entry that exists
    (other than the root) returns [nil] and removes the entry at
    [Dest.BlobAt] with everything below it.  Every other entry is left as
    it is, but for the directory the entry was in, which stays a directory
    and may get a new modification time. *)
Theorem localDelete_removes_subtree (tid : nat) (g : Commands) (wg : WgRef)
    (c : Change) (m : Machine Disk) (n : Z) :
  is_Some (nodes (world m) !! BlobAt (Dest c)) →
  BlobAt (Dest c) ≠ "/" →
  wgs m !! wg = Some n →
  0 < n →
  ∃ m',
    run tid (localDelete g wg c) m = Some (None, m') ∧
    ∀ k,
      if under (BlobAt (Dest c)) k then nodes (world m') !! k = None
      else
        nodes (world m') !! k = nodes (world m) !! k ∨
        (k = filepath_Dir (BlobAt (Dest c)) ∧
         ∃ t t', nodes (world m) !! k = Some (NDir t) ∧
                 nodes (world m') !! k = Some (NDir t')).
Proof.
  intros [x Hx] _ Hwg Hn.
  set (kept := filter (λ kv, under (BlobAt (Dest c)) kv.1 = false) (nodes (world m))).
  assert (run tid (call (os_RemoveAll (BlobAt (Dest c)))) m =
          Some (None,
                {| wgs := wgs m;
                   world := tick (with_nodes
                                    (touch_dir (filepath_Dir (BlobAt (Dest c)))
                                       (clock (world m)) kept) (world m));
                   log := (log m ++
                           [Ev tid (sys (os_RemoveAll (BlobAt (Dest c)))) None])%list |}))
    as Hbody.
  { rewrite run_call. unfold sys_call, Disk_World. simpl. unfold removeAll.
    rewrite Hx. reflexivity. }
  eapply run_handler_frame in Hbody as (m' & Hrun & _ & _ & Hworld);
    [|exact Hwg|exact Hn].
  exists m'. split; [exact Hrun|]. intros k. rewrite Hworld. simpl.
  assert (∀ k', under (BlobAt (Dest c)) k' = false →
                kept !! k' = nodes (world m) !! k') as Hkept.
  { intros k' Hu. subst kept. destruct (nodes (world m) !! k') as [y|] eqn:Hk.
    - apply map_lookup_filter_Some. split; [exact Hk|exact Hu].
    - apply map_lookup_filter_None. left. exact Hk. }
  destruct (under (BlobAt (Dest c)) k) eqn:Hu.
  - apply touch_dir_None. subst kept.
    apply map_lookup_filter_None. right. intros y _. simpl. congruence.
  - destruct (decide (k = filepath_Dir (BlobAt (Dest c)))) as [->|Hne].
    + rewrite touch_dir_lookup, (Hkept _ Hu).
      destruct (nodes (world m) !! filepath_Dir (BlobAt (Dest c))) as [[data t|t]|];
        [left; reflexivity| |left; reflexivity].
      right. split; [reflexivity|]. eauto.
    + left. rewrite touch_dir_lookup_ne by exact Hne. apply Hkept, Hu.
Qed.

Lemma localDelete_removes_subtree_witness :
  (is_Some (nodes (world Sample.mach) !! BlobAt (Dest del_home)) ∧
   BlobAt (Dest del_home) ≠ "/" ∧
   wgs Sample.mach !! 0%nat = Some 1 ∧ 0 < 1) ∧
  ∃ m',
    run 1 (localDelete Sample.g 0%nat del_home) Sample.mach = Some (None, m') ∧
    ∀ k,
      if under "/home/u" k then nodes (world m') !! k = None
      else
        nodes (world m') !! k = nodes (world Sample.mach) !! k ∨
        (k = "/home" ∧
         ∃ t t', nodes (world Sample.mach) !! k = Some (NDir t) ∧
                 nodes (world m') !! k = Some (NDir t')).
Proof.
  assert (is_Some (nodes (world Sample.mach) !! BlobAt (Dest del_home))) as Hex
    by (eexists; vm_compute; reflexivity).
  assert (BlobAt (Dest del_home) ≠ "/") as Hroot by discriminate.
  split; [split; [exact Hex|split; [exact Hroot|split; [reflexivity|lia]]]|].
  exact (localDelete_removes_subtree 1 Sample.g 0%nat del_home Sample.mach 1
           Hex Hroot eq_refl ltac:(lia)).
Defined.

(** X13.  On the reference world, whatever [download] returns, it
    leaves every entry of the local tree as it is but the one at the name
    it chose and the directory of that name, which stays a directory and
    may get a new modification time. *)
Theorem download_touches_only_its_destination (tid : nat) (g : Commands)
    (c : Change) (m m' : Machine Disk) (r : error) :
  run tid (download g c) m = Some (r, m') →
  ∀ k, k ≠ AbsPathOf g (exportChoice c).1.2 →
       nodes (world m') !! k = nodes (world m) !! k ∨
       (k = filepath_Dir (AbsPathOf g (exportChoice c).1.2) ∧
        ∃ t t', nodes (world m) !! k = Some (NDir t) ∧
                nodes (world m') !! k = Some (NDir t')).
Proof.
  intros Hrun. destruct (disk_download tid g c m m' r Hrun) as [Hframe _].
  exact Hframe.
Qed.

Lemma download_touches_only_its_destination_witness :
  ∃ m',
    run 1 (download Sample.g new_blob) Sample.mach = Some (None, m') ∧
    nodes (world m') !! "/home/u" = Some (NDir 100) ∧
    ∀ k, k ≠ "/home/u/new.bin" →
         nodes (world m') !! k = nodes (world Sample.mach) !! k ∨
         (k = "/home/u" ∧
          ∃ t t', nodes (world Sample.mach) !! k = Some (NDir t) ∧
                  nodes (world m') !! k = Some (NDir t')).
Proof.
  eexists. split; [vm_compute; reflexivity|]. split; [vm_compute; reflexivity|].
  refine (download_touches_only_its_destination 1 Sample.g new_blob Sample.mach _ None _).
  vm_compute. reflexivity.
Defined.

Lemma mkdirAll_keeps_remote (fuel : nat) (path : string) (d : Disk) :
  by_id (mkdirAll fuel path d).2 = by_id d.
Proof.
  assert (∀ p d0, by_id (mkdir p d0).2 = by_id d0) as Hmk.
  { intros p d0. unfold mkdir.
    destruct (nodes d0 !! p); [reflexivity|].
    destruct (nodes d0 !! filepath_Dir p) as [[? ?|?]|]; reflexivity. }
  revert path d. induction fuel as [|fuel IH]; intros path d; simpl.
  - destruct (nodes d !! path) as [[? ?|?]|]; simpl; try reflexivity. apply Hmk.
  - destruct (nodes d !! path) as [[? ?|?]|]; simpl; try reflexivity.
    destruct (String.length (filepath_Dir path) <? String.length path)%nat;
      [|apply Hmk].
    specialize (IH (filepath_Dir path) d).
    destruct (mkdirAll fuel (filepath_Dir path) d) as [[e|] d1]; simpl in *;
      [exact IH|]. rewrite Hmk. exact IH.
Qed.

Lemma disk_blob_stamp (tid : nat) (g : Commands) (c : Change) (m m' : Machine Disk) :
  BlobAt (Src c) ≠ "" →
  minInt64 ≤ ModTime (Src c) ≤ maxInt64 →
  run tid
    (err ← (if hasContent (Src c) then download g c else mret None);
     match err with
     | Some e => mret (Some e)
     | None =>
         call (os_Chtimes (AbsPathOf g (Path c)) (ModTime (Src c)) (ModTime (Src c)))
     end) m = Some (None, m') →
  ∃ data,
    by_id (world m) !! Id (Src c) = Some data ∧
    nodes (world m') !! AbsPathOf g (Path c) = Some (NFile data (ModTime (Src c))).
Proof.
  intros Hblob Hrange.
  pose proof (zeroTime_out_of_range _ Hrange) as Hzero.
  assert (hasContent (Src c) = true) as ->.
  { unfold hasContent. apply String.eqb_neq in Hblob. rewrite Hblob. reflexivity. }
  assert ((exportChoice c).1 = ("", Path c)) as Hchoice.
  { unfold exportChoice.
    destruct (String.length (BlobAt (Src c)) <? 1)%nat eqn:Hlen; [|reflexivity].
    apply length_zero_empty in Hlen. contradiction. }
  unfold mbind at 1, Prog_bind at 1. rewrite run_bind.
  destruct (run tid (download g c) m) as [[[e|] m2]|] eqn:Hdl; try discriminate.
  apply disk_download in Hdl as [_ Hdl].
  destruct (Hdl eq_refl) as (data & t & Hserved & Hfile).
  rewrite Hchoice in Hserved, Hfile. cbn [fst snd] in Hserved, Hfile.
  rewrite run_call. unfold sys_call, Disk_World. simpl. unfold chtimes.
  rewrite Hfile. simpl. rewrite Hzero.
  intros [= <-]. simpl.
  exists data. split; [exact Hserved|].
  rewrite lookup_insert_eq. unfold UnixNano.
  rewrite wrap64_small by exact Hrange. reflexivity.
Qed.

(** X14.  On the reference world, take a change with a raw blob whose
    [Src.ModTime] is an instant an [int64] of nanoseconds since the Unix
    epoch holds, which the zero [time.Time] is not.  After a successful [localMod], or a successful
    [localAdd] of a file, the entry at the local path is a file that holds
    exactly the bytes the remote stores under [Src.Id] and carries
    [Src.ModTime]. *)
Theorem blob_change_is_materialized (tid : nat) (g : Commands) (wg : WgRef)
    (c : Change) (m m' : Machine Disk) :
  BlobAt (Src c) ≠ "" →
  minInt64 ≤ ModTime (Src c) ≤ maxInt64 →
  Op c = OpMod ∨ (Op c = OpAdd ∧ IsDir (Src c) = false) →
  run tid (handler g (Op c) wg c) m = Some (None, m') →
  ∃ data,
    by_id (world m) !! Id (Src c) = Some data ∧
    nodes (world m') !! AbsPathOf g (Path c) = Some (NFile data (ModTime (Src c))).
Proof.
  intros Hblob Hrange [Hop|[Hop Hdir]]; rewrite Hop;
    unfold handler, localMod, localAdd;
    intros Hrun; apply disk_frame_inv in Hrun as (m1 & Hbody & ->).
  - eapply disk_blob_stamp; eassumption.
  - revert Hbody. cbv zeta. unfold mbind at 1, Prog_bind at 1.
    rewrite run_bind, run_call, Hdir. intros Hbody.
    apply disk_blob_stamp in Hbody as (data & Hdata & Hfile);
      [|exact Hblob|exact Hrange].
    exists data. split; [|exact Hfile].
    revert Hdata. unfold sys_call, Disk_World. simpl.
    destruct (mkdirAll _ _ (world m)) as [e0 d0] eqn:Hmk. simpl.
    pose proof (mkdirAll_keeps_remote
                  (String.length (filepath_Dir (AbsPathOf g (Path c))))
                  (filepath_Dir (AbsPathOf g (Path c))) (world m)) as Hkeep.
    rewrite Hmk in Hkeep. simpl in Hkeep. rewrite Hkeep. auto.
Qed.

Lemma blob_change_is_materialized_witness :
  (BlobAt (Src Sample.add_blob) ≠ "" ∧
   minInt64 ≤ ModTime (Src Sample.add_blob) ≤ maxInt64 ∧
   Op Sample.add_blob = OpAdd ∧ IsDir (Src Sample.add_blob) = false) ∧
  ∃ m',
    run 1 (handler Sample.g (Op Sample.add_blob) 0%nat Sample.add_blob) Sample.mach
      = Some (None, m') ∧
    ∃ data,
      by_id (world Sample.mach) !! "id1" = Some data ∧
      nodes (world m') !! "/home/u/a/b.bin" = Some (NFile data 42).
Proof.
  assert (BlobAt (Src Sample.add_blob) ≠ "") as Hne by discriminate.
  assert (minInt64 ≤ ModTime (Src Sample.add_blob) ≤ maxInt64) as Hrange
    by (vm_compute; split; discriminate).
  split; [split; [exact Hne|split; [exact Hrange|split; reflexivity]]|].
  eexists. split; [vm_compute; reflexivity|].
  refine (blob_change_is_materialized 1 Sample.g 0%nat Sample.add_blob Sample.mach _
            Hne Hrange (or_intror (conj eq_refl eq_refl)) _).
  vm_compute. reflexivity.
Defined.


